(** * Packr: configuration resolution and process hand-off (index.js)

    A shallow embedding of [index.js]: the environment-file loader
    ([loadEnvFromFile], [loadEnvFiles]), the path sandbox ([isPathInside],
    [resolveSafe]), the configuration merge ([userConfig]), the output
    normalisation ([joinOut]) and the worker launch (the promise returned
    by [packr]).

    A JavaScript string is modelled as a [string] whose characters are its
    code units, for strings all of whose code units are below 256 (so the
    no-break space U+00A0 is the character 160; text with other code units
    is outside the model).  [process.env] is a [gmap string string] of its
    variables (POSIX: names are case-sensitive), objects with a
    fixed shape as records whose optional fields are [option]s, and the
    effects of [packr] (console output, the artifact write, the spawn) as a
    trace of events.

    Besides these: the command-line entry of [index.js], the text that
    [ErrorHandler] builds for an error, and the deletion guard of the test
    harness ([__tests__/test.js]). *)

From Stdlib Require Import String Ascii List ZArith Lia Bool.
From stdpp Require Import base option list gmap strings pretty.
Import ListNotations.
Local Open Scope string_scope.

(** ** Strings as JavaScript uses them *)

Module JsString.

(** [s.split(c)] for a one-character separator: always at least one
    piece, [split_on c EmptyString] is the one-element list of the empty string. *)
Fixpoint split_on (c : ascii) (s : string) : list string :=
  match s with
  | EmptyString => [EmptyString]
  | String a s' =>
      if Ascii.eqb a c then EmptyString :: split_on c s'
      else match split_on c s' with
           | h :: t => String a h :: t
           | [] => [String a EmptyString]
           end
  end.

(** [l.join(sep)] *)
Definition join (sep : string) (l : list string) : string := String.concat sep l.

(** [s.startsWith(p)] *)
Fixpoint startsWith (p s : string) : bool :=
  match p, s with
  | EmptyString, _ => true
  | String a p', String b s' => Ascii.eqb a b && startsWith p' s'
  | String _ _, EmptyString => false
  end.

Definition is_empty (s : string) : bool :=
  match s with EmptyString => true | _ => false end.

(** White space of [String.prototype.trim] and of [\s] among the code
    units below 256: tab, line feed, vertical tab, form feed, carriage
    return, space, no-break space. *)
Definition is_ws (c : ascii) : bool :=
  let n := nat_of_ascii c in
  (Nat.leb 9 n && Nat.leb n 13) || Nat.eqb n 32 || Nat.eqb n 160.

Fixpoint trim_start (s : string) : string :=
  match s with
  | String c s' => if is_ws c then trim_start s' else s
  | EmptyString => EmptyString
  end.

(** Drops trailing white space: a character is kept when something
    that is kept follows it, or when it is not white space. *)
Fixpoint trim_end (s : string) : string :=
  match s with
  | EmptyString => EmptyString
  | String c s' =>
      match trim_end s' with
      | EmptyString => if is_ws c then EmptyString else String c EmptyString
      | r => String c r
      end
  end.

(** [s.trim()] *)
Definition trim (s : string) : string := trim_end (trim_start s).

Definition to_lower (c : ascii) : ascii :=
  let n := nat_of_ascii c in
  if Nat.leb 65 n && Nat.leb n 90 then ascii_of_nat (n + 32) else c.

Fixpoint lower (s : string) : string :=
  match s with
  | EmptyString => EmptyString
  | String c s' => String (to_lower c) (lower s')
  end.

(** [needle] occurs somewhere in [s] *)
Fixpoint contains (needle s : string) : bool :=
  startsWith needle s ||
  match s with
  | EmptyString => false
  | String _ s' => contains needle s'
  end.

(** [/a|b|.../i.test(s)] for literal alternatives *)
Definition test_any_ci (alts : list string) (s : string) : bool :=
  existsb (fun a => contains a (lower s)) alts.

Definition no_char (c : ascii) (s : string) : Prop :=
  Forall (fun a => a <> c) (list_ascii_of_string s).

End JsString.
Import JsString.

(** ** The POSIX flavour of Node's [path] module

    [index.js] calls [path.resolve], [path.relative], [path.isAbsolute],
    [path.basename], [path.dirname] and [path.join].  They belong to Node,
    not to this package; the definitions below follow Node's
    [lib/path.js] ([posix]) segment by segment. *)

Module NodePath.

Definition sep : ascii := "/"%char.

(** [path.isAbsolute(p)] *)
Definition isAbsolute (p : string) : bool :=
  match p with
  | String c _ => Ascii.eqb c sep
  | EmptyString => false
  end.

(** One segment of Node's [normalizeString]; the segments collected so
    far are kept innermost first. *)
Definition normalize_step (allowAboveRoot : bool) (stack : list string) (seg : string)
  : list string :=
  if String.eqb seg "" || String.eqb seg "." then stack
  else if String.eqb seg ".." then
    match stack with
    | top :: rest =>
        if String.eqb top ".."
        then (if allowAboveRoot then ".." :: stack else stack)
        else rest
    | [] => if allowAboveRoot then [".."] else []
    end
  else seg :: stack.

Definition normalize_segments (allowAboveRoot : bool) (segs : list string) : list string :=
  rev (fold_left (normalize_step allowAboveRoot) segs []).

(** [normalizeString(path, allowAboveRoot, '/', isPosixPathSeparator)] *)
Definition normalizeString (p : string) (allowAboveRoot : bool) : string :=
  join "/" (normalize_segments allowAboveRoot (split_on sep p)).

(** The loop of [posix.resolve]: arguments from the last to the first,
    then the working directory, until an absolute one is met. *)
Fixpoint resolve_loop (rev_args : list string) (resolvedPath : string) : string * bool :=
  match rev_args with
  | [] => (resolvedPath, false)
  | p :: rest =>
      if is_empty p then resolve_loop rest resolvedPath
      else
        let r := p +:+ "/" +:+ resolvedPath in
        if isAbsolute p then (r, true) else resolve_loop rest r
  end.

(** [path.resolve(...args)] in a process whose working directory is [cwd] *)
Definition resolve (cwd : string) (args : list string) : string :=
  let '(rp, absolute) := resolve_loop (rev args ++ [cwd])%list "" in
  let n := normalizeString rp (negb absolute) in
  if absolute then "/" +:+ n
  else if is_empty n then "." else n.

(** The names between the separators of a path *)
Definition path_segments (p : string) : list string :=
  filter (fun s => is_empty s = false) (split_on sep p).

Fixpoint drop_common (f t : list string) : list string * list string :=
  match f, t with
  | x :: f', y :: t' => if String.eqb x y then drop_common f' t' else (f, t)
  | _, _ => (f, t)
  end.

(** [path.relative(from, to)]: both are resolved, the common leading
    segments dropped, one [..] written per remaining segment of [from],
    then what remains of [to].  (Node finds the common part by a scan
    over characters that stops at the last common separator, which is
    the segment-wise common prefix of the two resolved paths.) *)
Definition relative (cwd from to : string) : string :=
  if String.eqb from to then ""
  else
    let from' := resolve cwd [from] in
    let to' := resolve cwd [to] in
    if String.eqb from' to' then ""
    else
      let '(f, t) := drop_common (path_segments from') (path_segments to') in
      join "/" (repeat ".." (List.length f) ++ t)%list.

(** [path.basename(p)]: the last name of the path, trailing separators
    ignored; empty when there is none. *)
Definition basename (p : string) : string :=
  List.last (path_segments p) "".

Fixpoint drop_while {A} (f : A -> bool) (l : list A) : list A :=
  match l with
  | x :: l' => if f x then drop_while f l' else l
  | [] => []
  end.

(** [path.dirname(p)]: scans from the end down to index 1, skips the
    trailing separators and the last name, and cuts at the separator
    before it. *)
Definition dirname (p : string) : string :=
  match p with
  | EmptyString => "."
  | String c0 rest =>
      let hasRoot := Ascii.eqb c0 sep in
      let r1 := drop_while (fun c => Ascii.eqb c sep) (rev (list_ascii_of_string rest)) in
      let r2 := drop_while (fun c => negb (Ascii.eqb c sep)) r1 in
      match r2 with
      | [] => if hasRoot then "/" else "."
      | _ :: before =>
          if hasRoot && Nat.eqb (List.length r2) 1 then "//"
          else String c0 (string_of_list_ascii (rev before))
      end
  end.

Definition ends_with_sep (p : string) : bool :=
  match rev (list_ascii_of_string p) with
  | c :: _ => Ascii.eqb c sep
  | [] => false
  end.

(** [path.normalize(p)] *)
Definition normalize (p : string) : string :=
  if is_empty p then "."
  else
    let isAbs := isAbsolute p in
    let trailingSeparator := ends_with_sep p in
    let n := normalizeString p (negb isAbs) in
    if is_empty n then
      (if isAbs then "/" else if trailingSeparator then "./" else ".")
    else
      let n' := if trailingSeparator then n +:+ "/" else n in
      if isAbs then "/" +:+ n' else n'.

(** [path.join(...args)] *)
Definition pjoin (args : list string) : string :=
  match filter (fun s => is_empty s = false) args with
  | [] => "."
  | parts => normalize (join "/" parts)
  end.

(** A name: a segment that normalisation keeps as it is. *)
Definition is_name (s : string) : bool :=
  negb (String.eqb s "") && negb (String.eqb s ".") && negb (String.eqb s "..").

(** The absolute path made of the given names *)
Definition render (segs : list string) : string := "/" +:+ join "/" segs.

(** A path in the form [path.resolve] returns and [process.cwd()] has:
    absolute, names separated by single separators, no trailing one. *)
Definition canonical (p : string) : Prop :=
  p = render (path_segments p) /\ forallb is_name (path_segments p) = true.

End NodePath.
Import NodePath.

(** ** JavaScript values and control *)

(** An [Error] object; only its message is modelled. *)
Inductive js_error : Type := Error (message : string).

(** How an evaluation ends: with a value, or with a thrown error. *)
Inductive completion (A : Type) : Type :=
| Normal (a : A)
| Throw (e : js_error).
Arguments Normal {A} a.
Arguments Throw {A} e.

(** Truthiness of a value that is a string or [undefined] *)
Definition truthy (v : option string) : bool :=
  match v with
  | Some s => negb (is_empty s)
  | None => false
  end.

(** [a || b] on values that are strings or [undefined] *)
Definition js_or (a b : option string) : option string :=
  if truthy a then a else b.

(** [a || 'literal'] with a non-empty literal *)
Definition js_or_lit (a : option string) (d : string) : string :=
  match a with
  | Some s => if is_empty s then d else s
  | None => d
  end.

(** [a !== undefined ? a : b] *)
Definition defined_or {A} (a : option A) (b : A) : A :=
  match a with
  | Some x => x
  | None => b
  end.

(** [a || b] where [a] is a boolean or [undefined] and [b] a boolean *)
Definition js_or_bool (a : option bool) (b : bool) : bool :=
  match a with
  | Some true => true
  | _ => b
  end.

(** [process.env.NAME === 'literal'] *)
Definition env_is (env : gmap string string) (name lit : string) : bool :=
  match env !! name with
  | Some v => String.eqb v lit
  | None => false
  end.

(** ** PathSandbox: [isPathInside] and [resolveSafe] *)

Definition isPathInside (cwd childPath parentPath : string) : bool :=
  let rel := relative cwd parentPath childPath in
  negb (startsWith ".." rel) && negb (isAbsolute rel).

(** [resolveSafe(p, baseDir)]; [PROJECT_ROOT] is [process.cwd()], read when
    the module is loaded, and the working directory is taken not to change
    afterwards. *)
Definition resolveSafe (PROJECT_ROOT p baseDir : string) : completion string :=
  let resolved := resolve PROJECT_ROOT [baseDir; p] in
  if negb (isPathInside PROJECT_ROOT resolved PROJECT_ROOT)
  then Throw (Error ("Unsafe path detected: " +:+ p))
  else Normal resolved.

(** What it means for a resolved path to lie inside the root: the names
    of the root are the leading names of the path. *)
Definition inside_root (root p : string) : Prop :=
  path_segments root `prefix_of` path_segments p.

(** ** ConfigMerger: the [userConfig] object *)

(** The value of a [reserved] entry: the code treats it as a
    comma-separated string; the README writes it as an array in
    [.packr.json]. *)
Inductive reserved_value : Type :=
| RString (s : string)
| RArray (l : list string).

Record uglify_options : Type := {
  uo_mangle : option bool;
  uo_keepFnames : option bool;
  uo_keepClassnames : option bool;
  uo_reserved : option reserved_value
}.

(** The [options] argument of [packr] (camelCase keys) *)
Record options : Type := {
  o_config : option string;
  o_scssInput : option string;
  o_scssOutput : option string;
  o_jsInput : option string;
  o_jsOutput : option string;
  o_cssDestination : option string;
  o_jsDestination : option string;
  o_minify : option bool;
  o_minifyJs : option bool;
  o_minifyCss : option bool;
  o_uglify : option uglify_options;
  o_target : option string;
  o_watch : option bool;
  o_verbose : option bool;
  o_sourcemap : option bool;
  o_format : option string
}.

Record uglify_file : Type := {
  uf_mangle : option bool;
  uf_keep_fnames : option bool;
  uf_keep_classnames : option bool;
  uf_reserved : option reserved_value
}.

(** The parsed config file (snake_case keys); [{}] when none is loaded *)
Record file_config : Type := {
  f_scss_input : option string;
  f_scss_output : option string;
  f_js_input : option string;
  f_js_output : option string;
  f_css_destination : option string;
  f_js_destination : option string;
  f_minify : option bool;
  f_minify_js : option bool;
  f_minify_css : option bool;
  f_uglify : option uglify_file;
  f_target : option string;
  f_verbose : option bool;
  f_sourcemap : option bool;
  f_format : option string;
  f_eslint : option bool;
  f_eslint_config : option string
}.

Definition empty_file_config : file_config :=
  {| f_scss_input := None; f_scss_output := None; f_js_input := None;
     f_js_output := None; f_css_destination := None; f_js_destination := None;
     f_minify := None; f_minify_js := None; f_minify_css := None;
     f_uglify := None; f_target := None; f_verbose := None;
     f_sourcemap := None; f_format := None; f_eslint := None;
     f_eslint_config := None |}.

Definition empty_options : options :=
  {| o_config := None; o_scssInput := None; o_scssOutput := None;
     o_jsInput := None; o_jsOutput := None; o_cssDestination := None;
     o_jsDestination := None; o_minify := None; o_minifyJs := None;
     o_minifyCss := None; o_uglify := None; o_target := None;
     o_watch := None; o_verbose := None; o_sourcemap := None;
     o_format := None |}.

Record uglify_config : Type := {
  mangle : bool;
  keep_fnames : bool;
  keep_classnames : bool;
  reserved : list string
}.

Record user_config : Type := {
  scss_input : option string;
  scss_output : option string;
  js_input : option string;
  js_output : option string;
  css_destination : option string;
  js_destination : option string;
  minify : bool;
  minify_js : bool;
  minify_css : bool;
  uglify : uglify_config;
  target : string;
  verbose : bool;
  sourcemap : bool;
  format : string;
  eslint : bool;
  eslint_config : option string
}.

(** [env === 'true' || (env !== 'false' && (o !== undefined ? o :
    f !== undefined ? f : true))]: the shape of [minify], [minify_js],
    [minify_css] and [uglify.mangle]. *)
Definition merge_default_true (env : gmap string string) (name : string)
    (o f : option bool) : bool :=
  env_is env name "true" ||
  (negb (env_is env name "false") && defined_or o (defined_or f true)).

(** [env === 'true' || (o !== undefined ? o : f !== undefined ? f : false)]:
    the shape of [uglify.keep_fnames] and [uglify.keep_classnames]. *)
Definition merge_keep (env : gmap string string) (name : string)
    (o f : option bool) : bool :=
  env_is env name "true" || defined_or o (defined_or f false).

(** The first truthy one of the three [reserved] sources, else [''] *)
Definition reserved_source (env : gmap string string)
    (o f : option reserved_value) : reserved_value :=
  if truthy (env !! "PACKR_UGLIFY_RESERVED")
  then RString (defined_or (env !! "PACKR_UGLIFY_RESERVED") "")
  else
    let pick (v : option reserved_value) (k : reserved_value) : reserved_value :=
      match v with
      | Some (RString s) => if is_empty s then k else RString s
      | Some (RArray l) => RArray l
      | None => k
      end in
    pick o (pick f (RString "")).

(** [.split(',').filter(Boolean)]; an array has no [split] method. *)
Definition split_reserved (v : reserved_value) : completion (list string) :=
  match v with
  | RString s => Normal (filter (fun x => is_empty x = false) (split_on ","%char s))
  | RArray _ => Throw (Error "(intermediate value).split is not a function")
  end.

Definition userConfig (env : gmap string string) (o : options) (f : file_config)
  : completion user_config :=
  match split_reserved (reserved_source env (o_uglify o ≫= uo_reserved)
                                            (f_uglify f ≫= uf_reserved)) with
  | Throw e => Throw e
  | Normal res =>
    Normal
    {| scss_input := js_or (js_or (env !! "PACKR_SCSS_INPUT") (o_scssInput o)) (f_scss_input f);
       scss_output := js_or (js_or (env !! "PACKR_SCSS_OUTPUT") (o_scssOutput o)) (f_scss_output f);
       js_input := js_or (js_or (env !! "PACKR_JS_INPUT") (o_jsInput o)) (f_js_input f);
       js_output := js_or (js_or (env !! "PACKR_JS_OUTPUT") (o_jsOutput o)) (f_js_output f);
       css_destination :=
         js_or (js_or (env !! "PACKR_CSS_DESTINATION") (o_cssDestination o)) (f_css_destination f);
       js_destination :=
         js_or (js_or (env !! "PACKR_JS_DESTINATION") (o_jsDestination o)) (f_js_destination f);
       minify := merge_default_true env "PACKR_MINIFY" (o_minify o) (f_minify f);
       minify_js := merge_default_true env "PACKR_MINIFY_JS" (o_minifyJs o) (f_minify_js f);
       minify_css := merge_default_true env "PACKR_MINIFY_CSS" (o_minifyCss o) (f_minify_css f);
       uglify :=
         {| mangle := merge_default_true env "PACKR_UGLIFY_MANGLE"
                        (o_uglify o ≫= uo_mangle) (f_uglify f ≫= uf_mangle);
            keep_fnames := merge_keep env "PACKR_UGLIFY_KEEP_FNAMES"
                        (o_uglify o ≫= uo_keepFnames) (f_uglify f ≫= uf_keep_fnames);
            keep_classnames := merge_keep env "PACKR_UGLIFY_KEEP_CLASSNAMES"
                        (o_uglify o ≫= uo_keepClassnames) (f_uglify f ≫= uf_keep_classnames);
            reserved := res |};
       target := js_or_lit (js_or (js_or (env !! "PACKR_TARGET") (o_target o)) (f_target f)) "es2020";
       verbose := env_is env "PACKR_VERBOSE" "true" ||
                  js_or_bool (o_verbose o) (js_or_bool (f_verbose f) false);
       sourcemap :=
         if env_is env "PACKR_SOURCEMAP" "true" then true
         else if env_is env "PACKR_SOURCEMAP" "false" then false
         else defined_or (o_sourcemap o) (defined_or (f_sourcemap f) false);
       format := js_or_lit (js_or (js_or (env !! "PACKR_FORMAT") (o_format o)) (f_format f)) "iife";
       eslint := env_is env "PACKR_ESLINT" "true" || js_or_bool (f_eslint f) false;
       eslint_config := js_or (env !! "PACKR_ESLINT_CONFIG") (f_eslint_config f) |}
  end.

(** The double quote character *)
Definition double_quote : ascii := ascii_of_nat 34.

Definition missing_message (key : string) : js_error :=
  Error ("Missing required option: " +:+ String double_quote key
                                     +:+ String double_quote "").

(** The loop over [required]: the first field that is falsy throws. *)
Definition required : list (string * (user_config -> option string)) :=
  [("scss_input", scss_input); ("scss_output", scss_output);
   ("js_input", js_input); ("js_output", js_output)].

Fixpoint validate_required (keys : list (string * (user_config -> option string)))
    (uc : user_config) : completion unit :=
  match keys with
  | [] => Normal tt
  | (key, get) :: rest =>
      if negb (truthy (get uc))
      then Throw (missing_message key)
      else validate_required rest uc
  end.

(** ** OutputNormalizer: [joinOut] *)

Definition joinOut (cwd outFile : string) (destDir : option string) (baseDir : string)
  : string :=
  let outAbs := resolve cwd [baseDir; outFile] in
  let outBase := basename outAbs in
  let outDir := if truthy destDir
                then resolve cwd [baseDir; defined_or destDir ""]
                else dirname outAbs in
  pjoin [outDir; outBase].

(** ** The invocation: [packr] *)

(** The object written to [.packr-config.json] *)
Record artifact : Type := {
  a_scss_input : string;
  a_scss_output : string;
  a_js_input : string;
  a_js_output : string;
  a_minify : bool;
  a_minify_js : bool;
  a_minify_css : bool;
  a_uglify : uglify_config;
  a_target : string;
  a_verbose : bool;
  a_sourcemap : bool;
  a_format : string
}.

(** [config]: the spread of [userConfig] with the six path fields replaced *)
Record config : Type := {
  c_user : user_config;
  c_scss_input : string;
  c_scss_output : string;
  c_js_input : string;
  c_js_output : string;
  c_css_destination : option string;
  c_js_destination : option string
}.

Inductive channel : Type := CLog | CError | CDebug.

(** What an invocation does to the outside *)
Inductive event : Type :=
| Console (c : channel)
| WriteFile (path : string) (content : artifact)
| Spawn (binary : string) (args : list string) (env : gmap string string).

(** The events a child process emits *)
Inductive child_event : Type :=
| Close (code : option Z)
| ChildError (err : js_error).

(** The state of the promise [packr] returns *)
Inductive outcome : Type :=
| Pending
| Fulfilled
| Rejected (e : js_error).

(** What the invocation reads from outside *)
Record world : Type := {
  w_env : gmap string string;               (* process.env *)
  w_cwd : string;                           (* process.cwd(), PROJECT_ROOT *)
  w_dirname : string;                       (* __dirname *)
  w_read_config : string -> completion file_config;
                                            (* JSON.parse(fs.readFileSync(p)) *)
  w_exists : string -> bool;                (* fs.existsSync *)
  w_child : list child_event                (* what the spawned worker emits *)
}.

(** Evaluations that leave a trace of events *)
Definition Eff (A : Type) : Type := completion A * list event.

Definition ret {A} (a : A) : Eff A := (Normal a, []).
Definition emit (e : event) : Eff unit := (Normal tt, [e]).
Definition lift {A} (c : completion A) : Eff A := (c, []).

Definition bind {A B} (k : A -> Eff B) (m : Eff A) : Eff B :=
  match m with
  | (Normal a, t) => let '(r, t') := k a in (r, (t ++ t')%list)
  | (Throw e, t) => (Throw e, t)
  end.

#[global] Instance Eff_bind : MBind Eff := @bind.
#[global] Instance Eff_ret : MRet Eff := @ret.

Definition is_production (env : gmap string string) : bool :=
  env_is env "NODE_ENV" "production".

(** [ErrorHandler.handleError]: reports on the console (the text, masked
    in production, is not modelled) and throws the error again. *)
Definition handleError {A} (env : gmap string string) (e : js_error) : Eff A :=
  (Throw e, if is_production env then [Console CError] else [Console CError; Console CDebug]).

(** [try { m } catch (err) { ErrorHandler.handleError(err, ...) }] *)
Definition try_handle {A} (env : gmap string string) (m : Eff A) : Eff A :=
  match m with
  | (Throw e, t) => let '(r, t') := @handleError A env e in (r, (t ++ t')%list)
  | r => r
  end.

(** The listeners on ['close'] and ['error']: a promise settles once. *)
Definition exit_error (code : option Z) : js_error :=
  Error ("Packr process exited with code " +:+
         match code with Some c => pretty c | None => "null" end).

Definition on_child_event (st : outcome) (ev : child_event) : outcome :=
  match st with
  | Pending =>
      match ev with
      | Close code =>
          match code with
          | Some 0%Z => Fulfilled
          | _ => Rejected (exit_error code)
          end
      | ChildError err => Rejected err
      end
  | _ => st
  end.

Definition launch_outcome (evs : list child_event) : outcome :=
  fold_left on_child_event evs Pending.

Definition binary_missing (binaryPath : string) : js_error :=
  Error ("Binary not found at " +:+ binaryPath +:+ ". Please run 'npm run build' first.").

Definition load_config (w : world) (o : options) : Eff (file_config * string) :=
  if truthy (o_config o) then
    let path := defined_or (o_config o) "" in
    try_handle (w_env w)
      (cf ← lift (w_read_config w path);
       emit (Console CLog) ;;
       ret (cf, dirname (resolve (w_cwd w) [path])))
  else ret (empty_file_config, w_cwd w).

Definition resolve_optional (root : string) (p : option string) (baseDir : string)
  : completion (option string) :=
  if truthy p then
    match resolveSafe root (defined_or p "") baseDir with
    | Normal r => Normal (Some r)
    | Throw e => Throw e
    end
  else Normal None.

Definition make_config (root : string) (uc : user_config) (configDir : string)
  : Eff config :=
  si ← lift (resolveSafe root (defined_or (scss_input uc) "") configDir);
  so ← lift (resolveSafe root (defined_or (scss_output uc) "") configDir);
  ji ← lift (resolveSafe root (defined_or (js_input uc) "") configDir);
  jo ← lift (resolveSafe root (defined_or (js_output uc) "") configDir);
  cd ← lift (resolve_optional root (css_destination uc) configDir);
  jd ← lift (resolve_optional root (js_destination uc) configDir);
  ret {| c_user := uc; c_scss_input := si; c_scss_output := so;
         c_js_input := ji; c_js_output := jo;
         c_css_destination := cd; c_js_destination := jd |}.

Definition make_artifact (cwd : string) (c : config) (configDir : string) : artifact :=
  {| a_scss_input := c_scss_input c;
     a_scss_output := joinOut cwd (c_scss_output c) (c_css_destination c) configDir;
     a_js_input := c_js_input c;
     a_js_output := joinOut cwd (c_js_output c) (c_js_destination c) configDir;
     a_minify := minify (c_user c);
     a_minify_js := minify_js (c_user c);
     a_minify_css := minify_css (c_user c);
     a_uglify := uglify (c_user c);
     a_target := target (c_user c);
     a_verbose := verbose (c_user c);
     a_sourcemap := sourcemap (c_user c);
     a_format := format (c_user c) |}.

(** The body of the [try] block of [packr] (POSIX: the binary is
    [bin/packr] and no shell is used). *)
Definition packr_body (w : world) (o : options) : Eff outcome :=
  emit (Console CLog) ;;
  '(configFromFile, configDir) ← load_config w o;
  uc ← lift (userConfig (w_env w) o configFromFile);
  emit (Console CLog) ;;
  lift (validate_required required uc) ;;
  c ← make_config (w_cwd w) uc configDir;
  emit (Console CLog) ;;
  let configPath := resolve (w_cwd w) [".packr-config.json"] in
  emit (WriteFile configPath (make_artifact (w_cwd w) c configDir)) ;;
  let binaryPath := pjoin [w_dirname w; "bin"; "packr"] in
  if negb (w_exists w binaryPath) then
    ret (Rejected (binary_missing binaryPath))
  else
    let args := configPath :: (if js_or_bool (o_watch o) false then ["--watch"] else []) in
    emit (Spawn binaryPath args
            (<["NODE_ENV" := js_or_lit (w_env w !! "NODE_ENV") "production"]> (w_env w))) ;;
    ret (launch_outcome (w_child w)).

Definition packr (w : world) (o : options) : Eff outcome :=
  try_handle (w_env w) (packr_body w o).

(** [watch(options)] *)
Definition watch (w : world) (o : options) : Eff outcome :=
  packr w {| o_config := o_config o; o_scssInput := o_scssInput o;
             o_scssOutput := o_scssOutput o; o_jsInput := o_jsInput o;
             o_jsOutput := o_jsOutput o; o_cssDestination := o_cssDestination o;
             o_jsDestination := o_jsDestination o; o_minify := o_minify o;
             o_minifyJs := o_minifyJs o; o_minifyCss := o_minifyCss o;
             o_uglify := o_uglify o; o_target := o_target o;
             o_watch := Some true; o_verbose := o_verbose o;
             o_sourcemap := o_sourcemap o; o_format := o_format o |}.

(** The artifacts written, in order *)
Definition artifacts_written (t : list event) : list artifact :=
  omap (fun e => match e with WriteFile _ a => Some a | _ => None end) t.

Definition is_write (e : event) : bool :=
  match e with WriteFile _ _ => true | _ => false end.
Definition is_spawn (e : event) : bool :=
  match e with Spawn _ _ _ => true | _ => false end.

(** ** EnvFileLoader: [loadEnvFromFile] and [loadEnvFiles] *)

(** An existing path as the loader sees it: what [fs.statSync] gives
    ([stats.mode & 0o777]) and what [fs.readFileSync(filepath, 'utf8')]
    gives (the text), each of which may throw instead: a file that may
    not be read, or a directory, has a mode and no text. *)
Record env_file : Type := {
  ef_mode : completion N;
  ef_content : completion string
}.

(** Statements that read and assign [process.env] and may throw; the
    assignments made before a throw stay. *)
Definition Load (A : Type) : Type :=
  gmap string string -> completion A * gmap string string.

Definition load_bind {A B} (k : A -> Load B) (m : Load A) : Load B :=
  fun env =>
    match m env with
    | (Normal a, env') => k a env'
    | (Throw e, env') => (Throw e, env')
    end.

#[global] Instance Load_bind : MBind Load := @load_bind.
#[global] Instance Load_ret : MRet Load := fun A a env => (Normal a, env).

Definition get_env (name : string) : Load (option string) :=
  fun env => (Normal (env !! name), env).
Definition set_env (name value : string) : Load unit :=
  fun env => (Normal tt, <[name := value]> env).

Definition is_quote (c : ascii) : bool :=
  Ascii.eqb c double_quote || Ascii.eqb c "'"%char.

Fixpoint strip_last_quote (s : string) : string :=
  match s with
  | EmptyString => EmptyString
  | String c EmptyString => if is_quote c then EmptyString else s
  | String c s' => String c (strip_last_quote s')
  end.

(** [value.replace(/^["']|["']$/g, '')]: one quote taken from the
    front and one from the end of what follows it. *)
Definition strip_quotes (s : string) : string :=
  match s with
  | String c s' => if is_quote c then strip_last_quote s' else strip_last_quote s
  | EmptyString => EmptyString
  end.

(** One line of an environment file: nothing for a blank line or a
    comment, else the key as written before the first [=] and the
    value, trimmed and unquoted. *)
Definition parse_line (line : string) : option (string * string) :=
  let trimmed := trim line in
  if is_empty trimmed || startsWith "#" trimmed then None
  else
    match split_on "="%char trimmed with
    | key :: rest => Some (key, strip_quotes (trim (join "=" rest)))
    | [] => None
    end.

(** The property names [process.env] inherits from [Object.prototype] *)
Definition inherited_names : list string :=
  ["constructor"; "__defineGetter__"; "__defineSetter__"; "hasOwnProperty";
   "__lookupGetter__"; "__lookupSetter__"; "isPrototypeOf";
   "propertyIsEnumerable"; "toString"; "valueOf"; "__proto__"; "toLocaleString"].

(** A name or a value as the environment of the process takes it: a C
    string, which ends before the first NUL character. *)
Fixpoint c_string (s : string) : string :=
  match s with
  | EmptyString => EmptyString
  | String c s' => if Ascii.eqb c Ascii.zero then EmptyString else String c (c_string s')
  end.

(** [key in process.env]: a variable of that name, or an inherited name *)
Definition has_property (env : gmap string string) (key : string) : bool :=
  bool_decide (is_Some (env !! c_string key)) || bool_decide (key ∈ inherited_names).

(** [process.env[name] = value]: an empty name sets nothing *)
Definition store (name value : string) (env : gmap string string) : gmap string string :=
  if is_empty (c_string name) then env else <[c_string name := c_string value]> env.

(** [if (override || !(key in process.env)) process.env[key.trim()] = value] *)
Definition assign (override : bool) (env : gmap string string) (kv : string * string)
  : gmap string string :=
  if override || negb (has_property env kv.1)
  then store (trim kv.1) kv.2 env
  else env.

Definition parse_lines (content : string) : list (string * string) :=
  omap parse_line (split_on (ascii_of_nat 10) content).

Definition octal_digit (n : N) : string :=
  String (ascii_of_N (48 + n mod 8)) "".

(** [mode.toString(8)] for a mode below [0o1000] *)
Definition octal (mode : N) : string :=
  (if N.leb 64 mode then octal_digit (mode / 64) else "") +:+
  (if N.leb 8 mode then octal_digit (mode / 8) else "") +:+
  octal_digit mode.

(** [loadEnvFromFile(filepath, override)]; the warnings and the masked
    log line about sensitive keys only write to the console and are left
    out. *)
Definition loadEnvFromFile (fs : gmap string env_file) (filepath : string)
    (override : bool) : Load unit :=
  fun env =>
    match fs !! filepath with
    | None => (Normal tt, env)
    | Some file =>
        match ef_mode file with
        | Throw err => (Throw err, env)
        | Normal mode =>
            if negb (N.eqb mode 384) && is_production env
            then (Throw (Error ("Insecure permissions (" +:+ octal mode +:+
                                ") on environment file: " +:+ filepath)), env)
            else
              match ef_content file with
              | Throw err => (Throw err, env)
              | Normal content =>
                  (Normal tt, fold_left (assign override) (parse_lines content) env)
              end
        end
    end.

Definition requiredVars : list string :=
  ["PACKR_SCSS_INPUT"; "PACKR_SCSS_OUTPUT"; "PACKR_JS_INPUT"; "PACKR_JS_OUTPUT"].

Definition is_sensitive_placeholder (kv : string * string) : bool :=
  startsWith "PACKR_" kv.1 &&
  test_any_ci ["key"; "token"; "secret"; "password"] kv.1 &&
  test_any_ci ["example"; "test"; "dummy"] kv.2.

(** The checks made when the mode is production (the order in which the
    offending names are listed follows [map_to_list]). *)
Definition production_checks : Load unit :=
  fun env =>
    let missing := filter (fun key => truthy (env !! key) = false) requiredVars in
    if negb (Nat.eqb (List.length missing) 0)
    then (Throw (Error ("Missing required environment variables: " +:+ join ", " missing)), env)
    else
      let sensitiveVars :=
        (filter (fun kv => is_sensitive_placeholder kv = true) (map_to_list env)).*1 in
      if negb (Nat.eqb (List.length sensitiveVars) 0)
      then (Throw (Error ("Production environment contains example/test values " +:+
                          "for sensitive variables: " +:+ join ", " sensitiveVars)), env)
      else (Normal tt, env).

Definition loadEnvFiles (fs : gmap string env_file) : Load unit :=
  loadEnvFromFile fs ".env" false ;;
  node_env ← get_env "NODE_ENV";
  let nodeEnv := js_or_lit node_env "development" in
  let envFile := ".env-" +:+ nodeEnv in
  loadEnvFromFile fs envFile true ;;
  (if String.eqb nodeEnv "development" && bool_decide (is_Some (fs !! ".env-local"))
   then
     currentSourcemap ← get_env "PACKR_SOURCEMAP";
     loadEnvFromFile fs ".env-local" true ;;
     match currentSourcemap with
     | Some v => set_env "PACKR_SOURCEMAP" v
     | None => mret tt
     end
   else mret tt) ;;
  if String.eqb nodeEnv "production" then production_checks else mret tt.

(** ** Notions used in the statements *)

(** A segment that is a name and holds no separator *)
Definition good_seg (s : string) : Prop := is_name s = true /\ no_char sep s.

(** Unset, or set to the empty string *)
Definition blank (env : gmap string string) (name : string) : Prop :=
  env !! name = None \/ env !! name = Some "".


(** An event that neither writes the artifact nor starts a process *)
Definition harmless (ev : event) : Prop := is_write ev = false /\ is_spawn ev = false.

(** Every event of the evaluation is harmless. *)
Definition quiet {A} (m : Eff A) : Prop := Forall harmless m.2.

(** If the evaluation throws, every event before the throw is harmless. *)
Definition quiet_if_throws {A} (m : Eff A) : Prop :=
  forall e t, m = (Throw e, t) -> Forall harmless t.

(** A project rooted at [/proj] whose config file names the four
    required paths and an ESLint config outside the root *)
Definition sample_file : file_config :=
  {| f_scss_input := Some "src/app.scss"; f_scss_output := Some "dist/app.css";
     f_js_input := Some "src/app.js"; f_js_output := Some "dist/app.js";
     f_css_destination := None; f_js_destination := None;
     f_minify := None; f_minify_js := None; f_minify_css := None;
     f_uglify := None; f_target := None; f_verbose := None;
     f_sourcemap := None; f_format := None; f_eslint := Some true;
     f_eslint_config := Some "../../etc/eslintrc.json" |}.


Definition sample_world (cf : file_config) : world :=
  {| w_env := ∅; w_cwd := "/proj"; w_dirname := "/proj/node_modules/packr";
     w_read_config := fun _ => Normal cf;
     w_exists := fun _ => true;
     w_child := [Close (Some 0%Z)] |}.

Definition sample_options : options :=
  {| o_config := Some "packr.json"; o_scssInput := None; o_scssOutput := None;
     o_jsInput := None; o_jsOutput := None; o_cssDestination := None;
     o_jsDestination := None; o_minify := None; o_minifyJs := None;
     o_minifyCss := None; o_uglify := None; o_target := None;
     o_watch := None; o_verbose := None; o_sourcemap := None;
     o_format := None |}.



(** The sample project with a worker that exits with status 2 *)
Definition failing_world : world :=
  {| w_env := ∅; w_cwd := "/proj"; w_dirname := "/proj/node_modules/packr";
     w_read_config := fun _ => Normal sample_file;
     w_exists := fun _ => true;
     w_child := [Close (Some 2%Z)] |}.

(** The name a line assigns to and the value it assigns: the trimmed
    key and the value, each up to its first NUL character *)
Definition line_name (kv : string * string) : string := c_string (trim kv.1).
Definition line_value (kv : string * string) : string := c_string kv.2.

(** The value an overriding load of these assignments gives to [k]: that
    of the last line that assigns to [k]; no line gives a value to the
    empty name. *)
Fixpoint overrides (k : string) (kvs : list (string * string)) : option string :=
  match kvs with
  | [] => None
  | kv :: rest =>
      match overrides k rest with
      | Some v => Some v
      | None =>
          if String.eqb (line_name kv) k && negb (is_empty k)
          then Some (line_value kv) else None
      end
  end.

(** The two files of the load-order example, with the given permission
    bits, and a production environment *)
Definition spec_example_fs (mode : N) : gmap string env_file :=
  <[".env" := {| ef_mode := Normal mode; ef_content := Normal "FOO=1" |}]>
  (<[".env-production" := {| ef_mode := Normal mode; ef_content := Normal "FOO=2" |}]> ∅).

Definition production_env : gmap string string := <["NODE_ENV" := "production"]> ∅.

Definition line_feed : string := String (ascii_of_nat 10) "".

(** Three files for a development run; the local one sets the source
    map and the minify switch *)
Definition local_content : string :=
  "PACKR_SOURCEMAP=false" +:+ line_feed +:+ "PACKR_MINIFY=false".

Definition development_fs : gmap string env_file :=
  <[".env" := {| ef_mode := Normal 420%N; ef_content := Normal "PACKR_SOURCEMAP=false" |}]>
  (<[".env-development" :=
       {| ef_mode := Normal 420%N;
          ef_content := Normal ("PACKR_SOURCEMAP=true" +:+ line_feed +:+ "PACKR_MINIFY=true") |}]>
  (<[".env-local" := {| ef_mode := Normal 420%N; ef_content := Normal local_content |}]> ∅)).

(** ** Further code: the command-line entry, the guard of the test harness,
    and the text of error reports *)

(** *** The command-line entry of [index.js] *)

(** [{ ...config, watch: watchMode }] as [packr] reads it, for a config
    file that holds the documented (snake_case) keys: [packr] reads the
    camelCase names, so only the keys spelled alike in both carry over
    ([minify], [target], [verbose], [sourcemap], [format], [uglify.mangle],
    [uglify.reserved]). *)
Definition cli_options (config : file_config) (watchMode : bool) : options :=
  {| o_config := None; o_scssInput := None; o_scssOutput := None;
     o_jsInput := None; o_jsOutput := None; o_cssDestination := None;
     o_jsDestination := None; o_minify := f_minify config; o_minifyJs := None;
     o_minifyCss := None;
     o_uglify :=
       match f_uglify config with
       | Some u => Some {| uo_mangle := uf_mangle u; uo_keepFnames := None;
                           uo_keepClassnames := None; uo_reserved := uf_reserved u |}
       | None => None
       end;
     o_target := f_target config; o_watch := Some watchMode;
     o_verbose := f_verbose config; o_sourcemap := f_sourcemap config;
     o_format := f_format config |}.

(** How the command-line run ends: [process.exit(code)], or no explicit
    exit with the promise fulfilled, or still waiting for the worker. *)
Inductive cli_end : Type :=
| Exit (code : Z)
| Settled
| Waiting.

(** The config path the entry settles on: the first argument, else
    [packr.json] in the working directory if it exists, else
    [.packr.json]; a directory stands for the [.packr.json] inside it. *)
Definition cli_config_path (w : world) (isDirectory : string -> bool)
    (args : list string) : string :=
  let fallback :=
    if w_exists w (pjoin [w_cwd w; "packr.json"])
    then pjoin [w_cwd w; "packr.json"]
    else pjoin [w_cwd w; ".packr.json"] in
  let configPath := js_or_lit (head args) fallback in
  if w_exists w configPath && isDirectory configPath
  then pjoin [configPath; ".packr.json"]
  else configPath.

(** The block under [require.main === module]; [args] is
    [process.argv.slice(2)]. *)
Definition cli (w : world) (isDirectory : string -> bool) (args : list string)
  : cli_end * list event :=
  let configPath := cli_config_path w isDirectory args in
  let watchMode := existsb (String.eqb "--watch") args in
  if negb (w_exists w configPath) then (Exit 1, [Console CError])
  else
    match w_read_config w configPath with
    | Throw _ => (Exit 1, [Console CError])
    | Normal config =>
        match packr w (cli_options config watchMode) with
        | (Throw _, t) => (Exit 1, (t ++ [Console CError])%list)
        | (Normal (Rejected _), t) => (Exit 1, (t ++ [Console CError])%list)
        | (Normal Fulfilled, t) => (Settled, t)
        | (Normal Pending, t) => (Waiting, t)
        end
    end.

(** *** The guard of the test harness ([__tests__/test.js]) *)

(** Its [isPathInside] also demands a non-empty relative path. *)
Definition isPathInside_strict (cwd childPath parentPath : string) : bool :=
  let rel := relative cwd parentPath childPath in
  negb (is_empty rel) && negb (startsWith ".." rel) && negb (isAbsolute rel).

(** [safeDelete(targetPath)]: the path handed to [fs.rmSync], if any *)
Definition safeDelete (cwd ROOT_DIR : string) (exists_ : string -> bool)
    (targetPath : string) : completion (option string) :=
  let resolved := resolve cwd [targetPath] in
  if negb (exists_ resolved) then Normal None
  else if negb (isPathInside_strict cwd resolved ROOT_DIR)
  then Throw (Error ("Unsafe delete blocked for: " +:+ resolved))
  else Normal (Some resolved).

(** *** [ErrorHandler]: masking and formatting *)

(** The class [[a-zA-Z0-9]] *)
Definition is_alnum (c : ascii) : bool :=
  let n := nat_of_ascii c in
  (Nat.leb 48 n && Nat.leb n 57) || (Nat.leb 65 n && Nat.leb n 90) ||
  (Nat.leb 97 n && Nat.leb n 122).

(** How many characters of the class stand at the front of [s] *)
Fixpoint run_length (s : string) : nat :=
  match s with
  | String c s' => if is_alnum c then S (run_length s') else 0
  | EmptyString => 0
  end.

Inductive run_state : Type := Outside | Copying | Dropping.

(** [s.replace(/[a-zA-Z0-9]{32,}/g, '[REDACTED]')]: the quantifier is
    greedy and the search goes on after each match, so every maximal run
    of 32 or more characters of the class is replaced as a whole. The state
    says whether the scan is at the start of a run, inside a shorter run
    that is copied, or inside a run that has been replaced. *)
Fixpoint mask_runs (st : run_state) (s : string) : string :=
  match s with
  | EmptyString => EmptyString
  | String c s' =>
      if is_alnum c then
        match st with
        | Dropping => mask_runs Dropping s'
        | Copying => String c (mask_runs Copying s')
        | Outside =>
            if Nat.leb 32 (run_length s)
            then "[REDACTED]" +:+ mask_runs Dropping s'
            else String c (mask_runs Copying s')
        end
      else String c (mask_runs Outside s')
  end.

(** The class [[^&\s]] *)
Definition value_char (c : ascii) : bool :=
  negb (Ascii.eqb c "&"%char || is_ws c).

(** [s] begins with [p], letter case ignored ([p] is in lower case) *)
Fixpoint starts_ci (p s : string) : bool :=
  match p, s with
  | EmptyString, _ => true
  | String a p', String b s' => Ascii.eqb a (to_lower b) && starts_ci p' s'
  | String _ _, EmptyString => false
  end.

(** What follows the first [n] characters *)
Fixpoint drop_chars (n : nat) (s : string) : string :=
  match n, s with
  | S n', String _ s' => drop_chars n' s'
  | _, _ => s
  end.

(** [/name=([^&\s]+)/i] matches at the front of [s] *)
Definition matches_at (name s : string) : bool :=
  starts_ci (name +:+ "=") s &&
  match drop_chars (String.length name + 1) s with
  | String c _ => value_char c
  | EmptyString => false
  end.

Inductive scan_state : Type :=
| Scan                 (* looking for a match *)
| Prefix (n : nat)     (* [n] more characters of the matched [name=] to pass *)
| Drop.                (* inside the matched value *)

(** [s.replace(/name=([^&\s]+)/gi, 'name=[REDACTED]')] *)
Fixpoint mask_assign (name : string) (st : scan_state) (s : string) : string :=
  match s with
  | EmptyString => EmptyString
  | String c s' =>
      let scan_here :=
        if matches_at name s
        then (name +:+ "=[REDACTED]") +:+ mask_assign name (Prefix (String.length name)) s'
        else String c (mask_assign name Scan s') in
      match st with
      | Scan => scan_here
      | Prefix (S n) => mask_assign name (Prefix n) s'
      | Prefix 0 => mask_assign name Drop s'
      | Drop => if value_char c then mask_assign name Drop s' else scan_here
      end
  end.

(** [ErrorHandler.maskSensitiveInfo(message)]; [production] says whether
    [NODE_ENV] is [production]. *)
Definition maskSensitiveInfo (production : bool) (message : string) : string :=
  if production
  then mask_assign "secret" Scan
         (mask_assign "token" Scan
            (mask_assign "key" Scan (mask_runs Outside message)))
  else message.

(** [ErrorHandler.formatError(error, context)] for an error with the
    given message and stack *)
Definition formatError (production : bool) (message stack context : string) : string :=
  (if is_empty context then "" else context +:+ ": ") +:+
  maskSensitiveInfo production message +:+
  (if production then "" else line_feed +:+ stack).

(** No run of 32 or more characters of the class anywhere in [s] *)
Fixpoint no_long_run (s : string) : bool :=
  Nat.ltb (run_length s) 32 &&
  match s with
  | String _ s' => no_long_run s'
  | EmptyString => true
  end.

(** ** Further notions used in the statements *)

(** The processes started, in order: the binary and its arguments *)
Definition spawns (t : list event) : list (string * list string) :=
  omap (fun e => match e with Spawn b args _ => Some (b, args) | _ => None end) t.

(** The value of the first line that assigns to [k]; no line gives a
    value to the empty name. *)
Fixpoint first_value (k : string) (kvs : list (string * string)) : option string :=
  match kvs with
  | [] => None
  | kv :: rest =>
      if String.eqb (line_name kv) k && negb (is_empty k) then Some (line_value kv)
      else first_value k rest
  end.

(** A name of the list: not empty and without a comma *)
Definition reserved_name (n : string) : Prop := is_empty n = false /\ no_char ","%char n.

(** Sample data *)

(** A config file with [reserved] written as an array *)
Definition array_file : file_config :=
  {| f_scss_input := Some "src/app.scss"; f_scss_output := Some "dist/app.css";
     f_js_input := Some "src/app.js"; f_js_output := Some "dist/app.js";
     f_css_destination := None; f_js_destination := None;
     f_minify := None; f_minify_js := None; f_minify_css := None;
     f_uglify := Some {| uf_mangle := Some true; uf_keep_fnames := None;
                         uf_keep_classnames := None;
                         uf_reserved := Some (RArray ["jQuery"; "$"]) |};
     f_target := None; f_verbose := None; f_sourcemap := None; f_format := None;
     f_eslint := None; f_eslint_config := None |}.

(** A base file that assigns [A] twice *)
Definition twice_fs : gmap string env_file :=
  <[".env" := {| ef_mode := Normal 420%N;
                 ef_content := Normal ("A=1" +:+ line_feed +:+ "A=2" +:+ line_feed +:+ "B=3") |}]> ∅.

(** A base file whose key is followed by a blank *)
Definition spaced_fs : gmap string env_file :=
  <[".env" := {| ef_mode := Normal 420%N; ef_content := Normal "PACKR_MINIFY =false" |}]> ∅.

(** An environment that passes the production checks *)
Definition production_ready_env : gmap string string :=
  <["NODE_ENV" := "production"]> (<["PACKR_SCSS_INPUT" := "src/app.scss"]>
  (<["PACKR_SCSS_OUTPUT" := "dist/app.css"]> (<["PACKR_JS_INPUT" := "src/app.js"]>
  (<["PACKR_JS_OUTPUT" := "dist/app.js"]> ∅)))).

(** Forty letters and digits *)
Definition forty : string := "0123456789abcdefghijABCDEFGHIJ0123456789".

(** A working directory without any file *)
Definition empty_dir_world : world :=
  {| w_env := ∅; w_cwd := "/proj"; w_dirname := "/proj/node_modules/packr";
     w_read_config := fun _ => Normal sample_file;
     w_exists := fun _ => false;
     w_child := [] |}.

(** * Properties *)

(** ** The path functions on examples *)

Example split_ex1 : split_on sep "/a//b/" = [""; "a"; ""; "b"; ""].
Proof. reflexivity. Qed.
Example resolve_ex1 : resolve "/proj" ["sub"; "../x/./y/"] = "/proj/x/y".
Proof. reflexivity. Qed.
Example resolve_ex2 : resolve "/proj" ["/etc"; "../../.."] = "/".
Proof. reflexivity. Qed.
Example relative_ex1 : relative "/" "/proj" "/proj/a/b" = "a/b".
Proof. reflexivity. Qed.
Example relative_ex2 : relative "/" "/proj/x" "/proj/a/b" = "../a/b".
Proof. reflexivity. Qed.
Example relative_ex3 : relative "/" "/proj/x" "/" = "../..".
Proof. reflexivity. Qed.
Example dirname_ex1 : map dirname ["/a/b"; "/a"; "/"; "a/b/"; "a"; "/a//b"; "//a"]
                      = ["/a"; "/"; "/"; "a"; "."; "/a/"; "//"].
Proof. reflexivity. Qed.
Example basename_ex1 : map basename ["/a/b.css"; "/"; "a/b/"] = ["b.css"; ""; "b"].
Proof. reflexivity. Qed.
Example pjoin_ex1 : pjoin ["/proj/public/css"; "app.css"] = "/proj/public/css/app.css".
Proof. reflexivity. Qed.
Example pjoin_ex2 : map pjoin [["a/"; "../../b/"]; [""; ""]; ["/"; ""]] = ["../b/"; "."; "/"].
Proof. reflexivity. Qed.
Example trim_ex1 : trim "  a b	 " = "a b".
Proof. reflexivity. Qed.

(** ** The loader and the invocation on examples *)

Example parse_lines_ex1 :
  parse_lines ("FOO=1" +:+ line_feed +:+ "# note" +:+ line_feed +:+ line_feed +:+
               "  BAR = 'x y' " +:+ line_feed +:+ "FLAG" +:+ line_feed +:+ "URL=a=b")
  = [("FOO", "1"); ("BAR ", "x y"); ("FLAG", ""); ("URL", "a=b")].
Proof. reflexivity. Qed.

Example strip_quotes_ex1 :
  map strip_quotes ["'a'"; "a'"; "'"; "''x"; "plain"] = ["a"; "a"; ""; "'x"; "plain"].
Proof. reflexivity. Qed.

Example octal_ex1 : map octal [420%N; 384%N; 7%N] = ["644"; "600"; "7"].
Proof. reflexivity. Qed.

Example loadEnvFiles_ex1 :
  loadEnvFiles development_fs ∅
  = (Normal tt, <["PACKR_MINIFY" := "false"]> (<["PACKR_SOURCEMAP" := "true"]> ∅)).
Proof. vm_compute. reflexivity. Qed.

Example packr_ex1 :
  let o := {| o_config := None; o_scssInput := Some "src/app.scss";
              o_scssOutput := Some "dist/app.css"; o_jsInput := Some "src/app.js";
              o_jsOutput := Some "dist/app.js"; o_cssDestination := Some "public/css";
              o_jsDestination := None; o_minify := None; o_minifyJs := None;
              o_minifyCss := None; o_uglify := None; o_target := None;
              o_watch := Some true; o_verbose := None; o_sourcemap := None;
              o_format := Some "esm" |} in
  let r := packr (sample_world empty_file_config) o in
  r.1 = Normal Fulfilled /\
  map (fun a => (a_scss_output a, a_js_output a, a_format a, a_minify a))
      (artifacts_written r.2)
  = [("/proj/public/css/app.css", "/proj/dist/app.js", "esm", true)] /\
  omap (fun e => match e with Spawn b args _ => Some (b, args) | _ => None end) r.2
  = [("/proj/node_modules/packr/bin/packr", ["/proj/.packr-config.json"; "--watch"])].
Proof. vm_compute. repeat split. Qed.

Example packr_ex2 :
  let o := {| o_config := None; o_scssInput := Some "../outside/app.scss";
              o_scssOutput := Some "dist/app.css"; o_jsInput := Some "src/app.js";
              o_jsOutput := Some "dist/app.js"; o_cssDestination := None;
              o_jsDestination := None; o_minify := None; o_minifyJs := None;
              o_minifyCss := None; o_uglify := None; o_target := None;
              o_watch := None; o_verbose := None; o_sourcemap := None;
              o_format := None |} in
  packr (sample_world empty_file_config) o
  = (Throw (Error "Unsafe path detected: ../outside/app.scss"),
     [Console CLog; Console CLog; Console CError; Console CDebug]).
Proof. vm_compute. reflexivity. Qed.

(** ** Facts about [split_on] and [join] *)

Lemma split_on_nonempty c s : split_on c s <> [].
Proof. destruct s as [|a s]; simpl; [done|]. destruct (Ascii.eqb a c); [done|]. by destruct (split_on c s). Qed.

Lemma split_on_app c s1 s2 :
  split_on c (s1 +:+ String c s2) = (split_on c s1 ++ split_on c s2)%list.
Proof.
  induction s1 as [|a s1 IH]; simpl.
  - by rewrite Ascii.eqb_refl.
  - destruct (Ascii.eqb a c); [by rewrite IH|].
    rewrite IH. pose proof (split_on_nonempty c s1) as Hne.
    by destruct (split_on c s1).
Qed.

Lemma no_char_nil c : no_char c "".
Proof. constructor. Qed.

Lemma no_char_cons c a s : no_char c (String a s) <-> a <> c /\ no_char c s.
Proof.
  unfold no_char; simpl. split.
  - by inversion 1.
  - intros [? ?]. by constructor.
Qed.

Lemma split_on_no_char c s : no_char c s -> split_on c s = [s].
Proof.
  induction s as [|a s IH]; [done|].
  rewrite no_char_cons. intros [Ha Hs]. simpl.
  apply Ascii.eqb_neq in Ha. rewrite Ha, (IH Hs). done.
Qed.

Lemma split_on_pieces c s : Forall (no_char c) (split_on c s).
Proof.
  induction s as [|a s IH]; simpl.
  - repeat constructor.
  - destruct (Ascii.eqb a c) eqn:E.
    + constructor; [apply no_char_nil | done].
    + apply Ascii.eqb_neq in E.
      destruct (split_on c s) as [|h t]; [repeat constructor; done|].
      inversion IH; subst. constructor; [|done]. by apply no_char_cons.
Qed.

Lemma split_on_join c segs :
  segs <> [] -> Forall (no_char c) segs ->
  split_on c (join (String c "") segs) = segs.
Proof.
  induction segs as [|x [|y r] IH]; [done| |]; intros _ H.
  - simpl. apply split_on_no_char. by inversion H.
  - inversion H as [|? ? Hx Hr]; subst.
    change (join (String c "") (x :: y :: r))
      with (x +:+ String c (join (String c "") (y :: r))).
    rewrite split_on_app, (split_on_no_char _ _ Hx), IH; done.
Qed.

(** ** Facts about Node's path functions *)

Lemma good_seg_nonempty s : good_seg s -> is_empty s = false.
Proof. intros [H _]. by destruct s. Qed.

Lemma render_cons segs : render segs = String sep (join "/" segs).
Proof. reflexivity. Qed.

Lemma filter_good segs :
  Forall good_seg segs -> filter (fun s => is_empty s = false) segs = segs.
Proof.
  induction 1 as [|x l Hx _ IH]; [done|].
  rewrite filter_cons_True by (by apply good_seg_nonempty). by rewrite IH.
Qed.

Lemma path_segments_render segs :
  Forall good_seg segs -> path_segments (render segs) = segs.
Proof.
  intros H. unfold path_segments. rewrite render_cons.
  cbn [split_on]. rewrite Ascii.eqb_refl.
  rewrite filter_cons_False by (simpl; congruence).
  destruct segs as [|x l]; [done|].
  change "/" with (String sep "").
  rewrite split_on_join; [by apply filter_good|done|].
  eapply Forall_impl; [exact H|]. by intros ? [_ ?].
Qed.

Lemma normalize_step_name a st s : is_name s = true -> normalize_step a st s = s :: st.
Proof.
  unfold is_name, normalize_step. intros H.
  destruct (String.eqb s ""), (String.eqb s "."), (String.eqb s ".."); done.
Qed.

Lemma normalize_fold_names a segs st :
  Forall good_seg segs ->
  fold_left (normalize_step a) segs st = (rev segs ++ st)%list.
Proof.
  intros H. revert st. induction H as [|x l [Hx _] _ IH]; intros st; [done|].
  simpl. rewrite normalize_step_name by done. rewrite IH.
  by rewrite <- app_assoc.
Qed.

Lemma normalize_step_good st s :
  no_char sep s -> Forall good_seg st -> Forall good_seg (normalize_step false st s).
Proof.
  intros Hs Hst. unfold normalize_step.
  destruct (String.eqb s "") eqn:E1; [done|].
  destruct (String.eqb s ".") eqn:E2; [done|]. simpl.
  destruct (String.eqb s "..") eqn:E3.
  - destruct st as [|top rest]; [done|].
    destruct (String.eqb top ".."); [done|]. by inversion Hst.
  - constructor; [|done]. split; [|done]. unfold is_name. by rewrite E1, E2, E3.
Qed.

Lemma normalize_fold_good segs st :
  Forall (no_char sep) segs -> Forall good_seg st ->
  Forall good_seg (fold_left (normalize_step false) segs st).
Proof.
  intros H. revert st. induction H as [|x l Hx _ IH]; intros st Hst; [done|].
  simpl. apply IH. by apply normalize_step_good.
Qed.

Lemma resolve_loop_absolute cwd l acc :
  isAbsolute cwd = true -> (resolve_loop (l ++ [cwd]) acc).2 = true.
Proof.
  intros Hc. revert acc. induction l as [|p l IH]; intros acc; simpl.
  - destruct cwd; [done|]. simpl. simpl in Hc. by rewrite Hc.
  - destruct (is_empty p); [apply IH|]. destruct (isAbsolute p); [done|apply IH].
Qed.

(** [path.resolve] returns an absolute path made of names. *)
Lemma resolve_shape cwd args :
  isAbsolute cwd = true ->
  exists segs, Forall good_seg segs /\ resolve cwd args = render segs.
Proof.
  intros Hc. unfold resolve.
  pose proof (resolve_loop_absolute cwd (rev args) "" Hc) as Habs.
  destruct (resolve_loop (rev args ++ [cwd]) "") as [rp ab]. simpl in Habs. subst ab.
  exists (normalize_segments false (split_on sep rp)). split; [|done].
  unfold normalize_segments. apply Forall_rev.
  apply normalize_fold_good; [apply split_on_pieces|constructor].
Qed.

Lemma good_forallb segs : Forall good_seg segs -> forallb is_name segs = true.
Proof. induction 1 as [|x l [Hx _] _ IH]; [done|]. simpl. by rewrite Hx. Qed.

Lemma canonical_render segs : Forall good_seg segs -> canonical (render segs).
Proof.
  intros H. unfold canonical. rewrite (path_segments_render _ H).
  split; [done|by apply good_forallb].
Qed.

Lemma canonical_resolve cwd args : isAbsolute cwd = true -> canonical (resolve cwd args).
Proof.
  intros Hc. destruct (resolve_shape cwd args Hc) as (segs & Hs & ->).
  by apply canonical_render.
Qed.

Lemma path_segments_pieces p : Forall (no_char sep) (path_segments p).
Proof.
  unfold path_segments. apply Forall_forall. intros x Hx.
  apply list_elem_of_filter in Hx as [_ Hx].
  pose proof (split_on_pieces sep p) as H.
  rewrite Forall_forall in H. by apply H.
Qed.

Lemma canonical_good p : canonical p -> Forall good_seg (path_segments p).
Proof.
  intros [_ Hn]. pose proof (path_segments_pieces p) as Hp.
  revert Hn Hp. generalize (path_segments p) as l.
  induction l as [|x l IH]; simpl; intros Hn Hp; [done|].
  apply andb_true_iff in Hn as [Hx Hl]. inversion Hp; subst.
  constructor; [done|by apply IH].
Qed.

Lemma canonical_absolute p : canonical p -> isAbsolute p = true.
Proof. intros [-> _]. reflexivity. Qed.

Lemma fold_normalize_render a segs :
  Forall good_seg segs ->
  fold_left (normalize_step a) (split_on sep (render segs +:+ "/")) [] = rev segs.
Proof.
  intros H. rewrite render_cons.
  change (String sep (join "/" segs) +:+ "/")
    with (String sep (join "/" segs +:+ String sep "")).
  change (split_on sep (String sep (join "/" segs +:+ String sep "")))
    with ("" :: split_on sep (join "/" segs +:+ String sep "")).
  rewrite split_on_app. cbn [fold_left]. rewrite fold_left_app.
  change (normalize_step a [] "") with (@nil string).
  destruct segs as [|x l]; [reflexivity|].
  rewrite split_on_join; [|done|].
  - rewrite (normalize_fold_names a (x :: l) []) by done. simpl. by rewrite app_nil_r.
  - eapply Forall_impl; [exact H|]. by intros ? [_ ?].
Qed.

(** Resolving a canonical path, under any base, gives it back. *)
Lemma resolve_canonical cwd args p :
  canonical p -> resolve cwd (args ++ [p]) = p.
Proof.
  intros Hp. pose proof (canonical_good p Hp) as Hg.
  destruct Hp as [Hr _]. unfold resolve. rewrite rev_app_distr. simpl.
  assert (is_empty p = false) as -> by (rewrite Hr; done).
  assert (isAbsolute p = true) as -> by (rewrite Hr; done).
  unfold normalizeString, normalize_segments.
  change (p +:+ "/" +:+ "") with (p +:+ "/"). rewrite Hr at 1.
  rewrite fold_normalize_render by done. rewrite rev_involutive.
  symmetry. exact Hr.
Qed.

(** ** The sandbox *)

Lemma drop_common_spec f t :
  exists c, f = (c ++ (drop_common f t).1)%list /\ t = (c ++ (drop_common f t).2)%list.
Proof.
  revert t. induction f as [|x f IH]; intros t; [by exists []|].
  destruct t as [|y t]; [by exists []|]. simpl.
  destruct (String.eqb x y) eqn:E; [|by exists []].
  apply String.eqb_eq in E as ->.
  destruct (IH t) as (c & H1 & H2). exists (y :: c). simpl. by rewrite <- H1, <- H2.
Qed.

Lemma resolve_canonical_1 cwd p : canonical p -> resolve cwd [p] = p.
Proof. apply (resolve_canonical cwd []). Qed.

Lemma resolve_canonical_2 cwd base p : canonical p -> resolve cwd [base; p] = p.
Proof. apply (resolve_canonical cwd [base]). Qed.

Lemma relative_canonical cwd from to :
  canonical from -> canonical to ->
  relative cwd from to =
    if String.eqb from to then ""
    else join "/" (repeat ".." (List.length (drop_common (path_segments from)
                                                          (path_segments to)).1)
                   ++ (drop_common (path_segments from) (path_segments to)).2)%list.
Proof.
  intros Hf Ht. unfold relative.
  rewrite (resolve_canonical_1 cwd from Hf), (resolve_canonical_1 cwd to Ht).
  destruct (String.eqb from to); [done|].
  by destruct (drop_common (path_segments from) (path_segments to)).
Qed.

Lemma startsWith_up l : startsWith ".." (join "/" (".." :: l)) = true.
Proof. by destruct l. Qed.

Lemma join_names_relative l :
  Forall good_seg l -> isAbsolute (join "/" l) = false.
Proof.
  destruct 1 as [|x l [Hx Hs] _]; [done|].
  assert (isAbsolute x = false) as Hab.
  { destruct x as [|a x]; [done|]. apply no_char_cons in Hs as [Ha _].
    simpl. by apply Ascii.eqb_neq. }
  destruct x as [|a x]; [done|]. by destruct l.
Qed.

(** The check accepts [child] exactly when no [..] is needed to reach
    it from [root] and its first name below [root] does not itself
    begin with two dots. *)
Lemma isPathInside_canonical cwd child root :
  canonical root -> canonical child ->
  isPathInside cwd child root = true ->
  inside_root root child.
Proof.
  intros Hr Hc. unfold isPathInside, inside_root.
  rewrite relative_canonical by done.
  destruct (String.eqb root child) eqn:E.
  { apply String.eqb_eq in E as ->. done. }
  destruct (drop_common_spec (path_segments root) (path_segments child)) as (c & H1 & H2).
  destruct (drop_common (path_segments root) (path_segments child)) as [f t].
  cbn [fst snd] in *. destruct f as [|x f].
  - intros _. rewrite app_nil_r in H1. subst c. rewrite H2. by apply prefix_app_r.
  - change (repeat ".." (List.length (x :: f)) ++ t)%list
      with (".." :: (repeat ".." (List.length f) ++ t)%list).
    by rewrite (startsWith_up (repeat ".." (List.length f) ++ t)%list).
Qed.

Lemma isPathInside_self cwd root : isPathInside cwd root root = true.
Proof. unfold isPathInside, relative. by rewrite String.eqb_refl. Qed.

Lemma resolveSafe_resolved root p base r :
  resolveSafe root p base = Normal r ->
  r = resolve root [base; p] /\ isPathInside root r root = true.
Proof.
  unfold resolveSafe.
  destruct (isPathInside root (resolve root [base; p]) root) eqn:E; simpl; [|done].
  intros [= <-]. done.
Qed.

Lemma resolveSafe_inside root p base r :
  canonical root ->
  resolveSafe root p base = Normal r ->
  r = resolve root [base; p] /\ canonical r /\ inside_root root r.
Proof.
  intros Hr H. apply resolveSafe_resolved in H as [-> Hin].
  pose proof (canonical_resolve root [base; p] (canonical_absolute _ Hr)) as Hc.
  split; [done|]. split; [done|]. by apply (isPathInside_canonical root).
Qed.

(** C2. Resolution never leaves the trusted root.  When the resolved
    candidate does not lie below the root, and (which is how the code
    tests it) when the relative path from the root to it begins with
    [..] or is absolute, [resolveSafe] throws the unsafe-path error;
    whatever it returns is the resolved candidate itself and lies inside
    the root; the root is accepted under every base directory. *)
Theorem resolveSafe_rejects_escape (root p base : string) :
  canonical root ->
  (~ inside_root root (resolve root [base; p]) ->
     resolveSafe root p base = Throw (Error ("Unsafe path detected: " +:+ p))) /\
  (startsWith ".." (relative root root (resolve root [base; p])) = true \/
   isAbsolute (relative root root (resolve root [base; p])) = true ->
     resolveSafe root p base = Throw (Error ("Unsafe path detected: " +:+ p))) /\
  (forall r, resolveSafe root p base = Normal r ->
     r = resolve root [base; p] /\ inside_root root r) /\
  resolveSafe root root base = Normal root.
Proof.
  intros Hr. repeat split.
  - intros Hout. destruct (resolveSafe root p base) as [r|e] eqn:E.
    + exfalso. apply Hout. by destruct (resolveSafe_inside root p base r Hr E) as (<- & _ & ?).
    + revert E. unfold resolveSafe. by destruct (isPathInside _ _ _); simpl; intros [= <-].
  - intros H. unfold resolveSafe, isPathInside.
    destruct H as [-> | ->]; simpl; [done|by rewrite andb_false_r].
  - by destruct (resolveSafe_inside root p base r Hr H) as (? & _ & ?).
  - by destruct (resolveSafe_inside root p base r Hr H) as (? & _ & ?).
  - unfold resolveSafe. rewrite (resolve_canonical_2 root base root Hr).
    by rewrite isPathInside_self.
Qed.

Lemma resolveSafe_rejects_escape_witness :
  canonical "/proj" /\
  resolveSafe "/proj" "../../etc/passwd" "/proj/sub"
    = Throw (Error "Unsafe path detected: ../../etc/passwd") /\
  resolveSafe "/proj" "/proj" "/tmp" = Normal "/proj".
Proof.
  assert (canonical "/proj") as H by (split; reflexivity).
  split; [exact H|]. split.
  - apply (proj1 (resolveSafe_rejects_escape "/proj" "../../etc/passwd" "/proj/sub" H)).
    intros [k Hk]. vm_compute in Hk. discriminate Hk.
  - apply (resolveSafe_rejects_escape "/proj" "x" "/tmp" H).
Defined.

Lemma drop_common_prefix l r : drop_common l (l ++ r) = ([], r).
Proof.
  induction l as [|x l IH]; simpl; [by destruct r|].
  by rewrite String.eqb_refl.
Qed.

Lemma startsWith_up_join x more :
  good_seg x -> startsWith ".." (join "/" (x :: more)) = startsWith ".." x.
Proof.
  intros [Hn Hs]. destruct x as [|a [|b x]]; [done| |].
  - destruct more as [|y more]; [done|]. unfold join. simpl.
    by destruct (Ascii.eqb "." a).
  - by destruct more as [|y more].
Qed.

(** For resolved paths the check of [isPathInside] accepts the paths
    below the root whose first name below it does not begin with two
    dots (and the root itself). *)
Lemma isPathInside_below cwd root p rest :
  canonical root -> canonical p ->
  path_segments p = (path_segments root ++ rest)%list ->
  (forall x, head rest = Some x -> startsWith ".." x = false) ->
  isPathInside cwd p root = true.
Proof.
  intros Hr Hp Hs Hx. unfold isPathInside.
  rewrite relative_canonical by done.
  destruct (String.eqb root p); [done|].
  rewrite Hs, drop_common_prefix.
  pose proof (canonical_good p Hp) as Hg. rewrite Hs in Hg.
  apply Forall_app in Hg as [_ Hg].
  cbn [fst snd repeat List.length app]. destruct rest as [|x more]; [done|].
  rewrite startsWith_up_join by (by inversion Hg).
  rewrite (Hx x eq_refl), join_names_relative by done. done.
Qed.

(** C9 (as amended). A path in resolved form that lies below the root,
    its first name below the root not beginning with two dots, is
    returned unchanged under every base directory; in particular
    resolving is idempotent: what one resolution returned, a second
    one returns again. *)
Theorem resolveSafe_idempotent (root : string) :
  canonical root ->
  (forall p base rest,
     canonical p ->
     path_segments p = (path_segments root ++ rest)%list ->
     (forall x, head rest = Some x -> startsWith ".." x = false) ->
     resolveSafe root p base = Normal p) /\
  (forall p base base' r,
     resolveSafe root p base = Normal r -> resolveSafe root r base' = Normal r).
Proof.
  intros Hr. split.
  - intros p base rest Hp Hs Hx. unfold resolveSafe.
    rewrite (resolve_canonical_2 root base p Hp).
    by rewrite (isPathInside_below root root p rest).
  - intros p base base' r H.
    pose proof (resolveSafe_resolved _ _ _ _ H) as [_ Hin].
    destruct (resolveSafe_inside root p base r Hr H) as (_ & Hc & _).
    unfold resolveSafe. rewrite (resolve_canonical_2 root base' r Hc). by rewrite Hin.
Qed.

Lemma resolveSafe_idempotent_witness :
  canonical "/proj" /\
  resolveSafe "/proj" "/proj/dist/app.css" "/elsewhere" = Normal "/proj/dist/app.css".
Proof.
  assert (canonical "/proj") as H by (split; reflexivity).
  split; [exact H|].
  apply (proj1 (resolveSafe_idempotent "/proj" H) _ _ ["dist"; "app.css"]).
  - split; reflexivity.
  - reflexivity.
  - by intros x [= <-].
Defined.

(** C9 as stated fails: an absolute path inside the root that is not in
    resolved form (a trailing separator, a [..] in the middle) comes back
    changed. *)
Lemma resolveSafe_absolute_changed :
  isAbsolute "/proj/a/" = true /\
  isPathInside "/proj" "/proj/a/" "/proj" = true /\
  inside_root "/proj" "/proj/a/" /\
  resolveSafe "/proj" "/proj/a/" "/proj" = Normal "/proj/a" /\
  resolveSafe "/proj" "/proj/a/" "/proj" <> Normal "/proj/a/" /\
  resolveSafe "/proj" "/proj/a/../b" "/proj" = Normal "/proj/b".
Proof.
  repeat split; try reflexivity; [by exists ["a"]|done].
Qed.

(** A name below the root that begins with two dots is refused although
    it does not leave the root. *)
Remark resolveSafe_refuses_dotted_name :
  inside_root "/proj" "/proj/..cache" /\
  resolveSafe "/proj" "..cache" "/proj" = Throw (Error "Unsafe path detected: ..cache").
Proof. split; [by exists ["..cache"]|reflexivity]. Qed.

(** ** Output normalisation *)

Lemma split_on_render segs :
  Forall good_seg segs ->
  split_on sep (render segs) = "" :: (if decide (segs = []) then [""] else segs).
Proof.
  intros H. rewrite render_cons.
  change (split_on sep (String sep (join "/" segs)))
    with ("" :: split_on sep (join "/" segs)).
  f_equal. destruct (decide (segs = [])) as [->|Hne]; [done|].
  change "/" with (String sep ""). apply split_on_join; [done|].
  eapply Forall_impl; [exact H|]. by intros ? [_ ?].
Qed.

Lemma fold_split_render a segs st :
  Forall good_seg segs ->
  fold_left (normalize_step a) (split_on sep (render segs)) st = (rev segs ++ st)%list.
Proof.
  intros H. rewrite split_on_render by done.
  destruct (decide (segs = [])) as [->|Hne]; [done|].
  cbn [fold_left]. change (normalize_step a st "") with st.
  by apply normalize_fold_names.
Qed.

Lemma list_ascii_app (a b : string) :
  list_ascii_of_string (a +:+ b) = (list_ascii_of_string a ++ list_ascii_of_string b)%list.
Proof. induction a as [|x a IH]; simpl; [done|]. f_equal. exact IH. Qed.

Lemma ends_with_sep_name a b :
  good_seg b -> ends_with_sep (a +:+ String sep b) = false.
Proof.
  intros [Hn Hs]. unfold ends_with_sep. rewrite list_ascii_app, rev_app_distr.
  destruct b as [|c b]; [done|]. unfold no_char in Hs.
  apply Forall_rev in Hs.
  change (list_ascii_of_string (String sep (String c b)))
    with (sep :: list_ascii_of_string (String c b)).
  cbn [rev]. 
  destruct (rev (list_ascii_of_string (String c b))) as [|z l] eqn:E.
  { apply (f_equal (@List.length ascii)) in E. rewrite length_rev in E. done. }
  simpl. inversion Hs; subst. by apply Ascii.eqb_neq.
Qed.

(** Joining a resolved directory with a name puts the name below it. *)
Lemma pjoin_dir_name ds b :
  Forall good_seg ds -> good_seg b ->
  pjoin [render ds; b] = render (ds ++ [b]).
Proof.
  intros Hd Hb. unfold pjoin.
  rewrite filter_cons_True by done.
  rewrite filter_cons_True by (by apply good_seg_nonempty).
  rewrite filter_nil.
  change (join "/" [render ds; b]) with (render ds +:+ String sep b).
  unfold normalize.
  assert (is_empty (render ds +:+ String sep b) = false) as -> by reflexivity.
  assert (isAbsolute (render ds +:+ String sep b) = true) as -> by reflexivity.
  rewrite ends_with_sep_name by done.
  unfold normalizeString, normalize_segments.
  rewrite split_on_app, fold_left_app, fold_split_render by done.
  rewrite (split_on_no_char _ _ (proj2 Hb)). cbn [fold_left negb].
  rewrite (normalize_step_name _ _ _ (proj1 Hb)), app_nil_r.
  change (rev (b :: rev ds)) with (rev (rev ds) ++ [b])%list.
  rewrite rev_involutive.
  assert (is_empty (join "/" (ds ++ [b])) = false) as ->; [|done].
  destruct ds as [|d ds]; simpl.
  - by apply good_seg_nonempty.
  - destruct (ds ++ [b])%list eqn:E; [by destruct ds|].
    inversion Hd as [|? ? Hx _]; subst. apply good_seg_nonempty in Hx. by destruct d.
Qed.

Lemma good_snoc ds b : Forall good_seg ds -> good_seg b -> Forall good_seg (ds ++ [b]).
Proof. intros Hd Hb. apply Forall_app. split; [done|]. by constructor. Qed.

Lemma good_literal s : is_name s = true -> forallb (fun c => negb (Ascii.eqb c sep))
                                               (list_ascii_of_string s) = true -> good_seg s.
Proof.
  intros Hn Hs. split; [done|]. unfold no_char. apply Forall_forall. intros c Hc.
  rewrite forallb_forall in Hs. apply list_elem_of_In, Hs in Hc.
  apply negb_true_iff in Hc. by apply Ascii.eqb_neq.
Qed.

Lemma basename_render ds b :
  Forall good_seg ds -> good_seg b -> basename (render (ds ++ [b])) = b.
Proof.
  intros Hd Hb. unfold basename. rewrite path_segments_render.
  - by rewrite List.last_last.
  - by apply good_snoc.
Qed.

(** The relocation law of [joinOut]: with a destination, the result is
    the resolved destination followed by the file name of the resolved
    output. *)
Lemma joinOut_relocates cwd outFile dest baseDir :
  isAbsolute cwd = true -> is_empty dest = false ->
  is_empty (basename (resolve cwd [baseDir; outFile])) = false ->
  joinOut cwd outFile (Some dest) baseDir =
    render (path_segments (resolve cwd [baseDir; dest]) ++
            [basename (resolve cwd [baseDir; outFile])]).
Proof.
  intros Hc Hd Hb. unfold joinOut. simpl. rewrite Hd. simpl.
  destruct (resolve_shape cwd [baseDir; dest] Hc) as (ds & Hds & ->).
  destruct (resolve_shape cwd [baseDir; outFile] Hc) as (os & Hos & E).
  rewrite E in *. rewrite path_segments_render by done.
  apply pjoin_dir_name; [done|].
  unfold basename in *. rewrite path_segments_render in * by done.
  destruct os as [|o os] using rev_ind; [done|].
  rewrite List.last_last. apply Forall_app in Hos as [_ Ho]. by inversion Ho.
Qed.

(** Resolving a relative path against a canonical base *)
Lemma resolve_relative cwd base p :
  canonical base -> is_empty p = false -> isAbsolute p = false ->
  resolve cwd [base; p] =
    render (rev (fold_left (normalize_step false) (split_on sep p)
                           (rev (path_segments base)))).
Proof.
  intros Hb Hp Ha. pose proof (canonical_good base Hb) as Hg.
  destruct Hb as [Hr _]. unfold resolve. simpl. rewrite Hp, Ha.
  assert (is_empty base = false) as -> by (rewrite Hr; done).
  assert (isAbsolute base = true) as -> by (rewrite Hr; done).
  unfold normalizeString, normalize_segments.
  change (base +:+ "/" +:+ p +:+ "/" +:+ "") with (base +:+ String sep (p +:+ String sep "")).
  rewrite !split_on_app, !fold_left_app. rewrite Hr at 1.
  rewrite fold_split_render, app_nil_r by done. simpl.
  set (st := fold_left _ _ _). by change (normalize_step false st "") with st.
Qed.

Example joinOut_spec_example (root : string) :
  canonical root ->
  joinOut root "dist/app.css" (Some "public/css") root =
    render (path_segments root ++ ["public"; "css"; "app.css"]).
Proof.
  intros Hr. pose proof (canonical_good root Hr) as Hg.
  assert (good_seg "dist" /\ good_seg "app.css" /\ good_seg "public" /\ good_seg "css")
    as (G1 & G2 & G3 & G4) by (repeat split; by apply good_literal).
  assert (resolve root [root; "dist/app.css"] =
          render ((path_segments root ++ ["dist"]) ++ ["app.css"])) as Ho.
  { rewrite resolve_relative by done. simpl. rewrite rev_involutive.
    by rewrite <- app_assoc. }
  assert (resolve root [root; "public/css"] =
          render ((path_segments root ++ ["public"]) ++ ["css"])) as Hd.
  { rewrite resolve_relative by done. simpl. rewrite rev_involutive.
    by rewrite <- app_assoc. }
  rewrite joinOut_relocates; [|by apply canonical_absolute|done|].
  - rewrite Ho, Hd, basename_render by (try apply good_snoc; done).
    rewrite path_segments_render by (by repeat apply good_snoc).
    by rewrite <- !app_assoc.
  - by rewrite Ho, basename_render by (try apply good_snoc; done).
Qed.

Lemma string_app_assoc (a b c : string) : (a +:+ b) +:+ c = a +:+ (b +:+ c).
Proof.
  induction a as [|x a IH]; [done|].
  change (String x ((a +:+ b) +:+ c) = String x (a +:+ (b +:+ c))). by rewrite IH.
Qed.

Lemma join_snoc ds b :
  ds <> [] -> join "/" (ds ++ [b]) = join "/" ds +:+ String sep b.
Proof.
  induction ds as [|d [|d' ds] IH]; [done|done|]. intros _.
  change (join "/" ((d :: d' :: ds) ++ [b]))
    with (d +:+ String sep (join "/" ((d' :: ds) ++ [b]))).
  rewrite IH by done.
  change (join "/" (d :: d' :: ds)) with (d +:+ String sep (join "/" (d' :: ds))).
  by rewrite string_app_assoc.
Qed.

Lemma drop_while_all {A} (f : A -> bool) l :
  Forall (fun x => f x = true) l -> drop_while f l = [].
Proof. induction 1 as [|x l Hx _ IH]; simpl; [done|]. by rewrite Hx. Qed.

Lemma drop_while_stop {A} (f : A -> bool) l1 x l2 :
  Forall (fun y => f y = true) l1 -> f x = false ->
  drop_while f (l1 ++ x :: l2) = x :: l2.
Proof.
  intros H Hx. induction H as [|y l Hy _ IH]; simpl; [by rewrite Hx|]. by rewrite Hy.
Qed.

Lemma name_chars b :
  good_seg b ->
  Forall (fun c => negb (Ascii.eqb c sep) = true) (rev (list_ascii_of_string b)) /\
  exists c l, rev (list_ascii_of_string b) = c :: l /\ Ascii.eqb c sep = false.
Proof.
  intros [Hn Hs]. unfold no_char in Hs. apply Forall_rev in Hs.
  assert (Forall (fun c => negb (Ascii.eqb c sep) = true) (rev (list_ascii_of_string b))) as H.
  { eapply Forall_impl; [exact Hs|]. intros c Hc. apply negb_true_iff. by apply Ascii.eqb_neq. }
  split; [exact H|].
  destruct (rev (list_ascii_of_string b)) as [|c l] eqn:E.
  - apply (f_equal (@List.length ascii)) in E. rewrite length_rev in E. by destruct b.
  - exists c, l. split; [done|]. inversion H; subst. by apply negb_true_iff.
Qed.

Lemma string_of_rev_rev s :
  string_of_list_ascii (rev (rev (list_ascii_of_string s))) = s.
Proof. by rewrite rev_involutive, string_of_list_ascii_of_string. Qed.

(** The directory of a resolved path is the path without its last name. *)
Lemma dirname_render ds b :
  Forall good_seg ds -> good_seg b -> dirname (render (ds ++ [b])) = render ds.
Proof.
  intros Hd Hb. rewrite !render_cons.
  destruct (name_chars b Hb) as (Hall & c & l & Ec & Hc).
  unfold dirname. rewrite Ascii.eqb_refl.
  destruct (decide (ds = [])) as [->|Hne].
  - change (join "/" ([] ++ [b])) with b. rewrite Ec. cbn [drop_while]. rewrite Hc.
    rewrite <- Ec. by rewrite drop_while_all.
  - rewrite join_snoc by done. rewrite list_ascii_app. cbn [list_ascii_of_string].
    rewrite rev_app_distr. cbn [rev]. rewrite <- app_assoc. cbn [app].
    rewrite Ec. cbn [app drop_while]. rewrite Hc.
    change (c :: (l ++ sep :: rev (list_ascii_of_string (join "/" ds)))%list)
      with ((c :: l) ++ sep :: rev (list_ascii_of_string (join "/" ds)))%list.
    rewrite <- Ec.
    rewrite drop_while_stop; [|done|by rewrite Ascii.eqb_refl].
    assert (exists a X, join "/" ds = String a X) as (a & X & EX).
    { destruct ds as [|d ds]; [done|]. inversion Hd as [|? ? Hg _]; subst.
      apply good_seg_nonempty in Hg. destruct d as [|a d]; [done|].
      destruct ds; simpl; eauto. }
    rewrite string_of_rev_rev.
    rewrite EX at 1. cbn [list_ascii_of_string rev List.length].
    rewrite length_app. cbn [List.length].
    replace (S (List.length (rev (list_ascii_of_string X)) + 1) =? 1)%nat with false
      by (symmetry; apply Nat.eqb_neq; lia).
    done.
Qed.

(** Without a destination the output stays where it resolves to. *)
Lemma joinOut_in_place cwd outFile baseDir :
  isAbsolute cwd = true ->
  joinOut cwd outFile None baseDir = resolve cwd [baseDir; outFile].
Proof.
  intros Hc. unfold joinOut. cbn [truthy].
  destruct (resolve_shape cwd [baseDir; outFile] Hc) as (os & Hos & ->).
  destruct os as [|b ds _] using rev_ind; [reflexivity|].
  apply Forall_app in Hos as [Hds Hb]. inversion Hb; subst.
  rewrite dirname_render, basename_render by done. by apply pjoin_dir_name.
Qed.

Lemma render_inj a b : Forall good_seg a -> Forall good_seg b -> render a = render b -> a = b.
Proof.
  intros Ha Hb H. by rewrite <- (path_segments_render a), <- (path_segments_render b), H.
Qed.

(** C7. [joinOut] resolves the output against the base directory and
    keeps its file name; with a destination the result is that file name
    directly below the resolved destination, without one it is the
    resolved output itself.  For [dist/app.css] and [public/css] under
    the root this is [<root>/public/css/app.css] and not
    [<root>/dist/public/css/app.css]. *)
Theorem joinOut_destination_override (root : string) :
  canonical root ->
  (forall outFile dest baseDir,
     is_empty dest = false ->
     is_empty (basename (resolve root [baseDir; outFile])) = false ->
     joinOut root outFile (Some dest) baseDir =
       render (path_segments (resolve root [baseDir; dest]) ++
               [basename (resolve root [baseDir; outFile])])) /\
  (forall outFile baseDir,
     joinOut root outFile None baseDir = resolve root [baseDir; outFile]) /\
  joinOut root "dist/app.css" (Some "public/css") root =
    render (path_segments root ++ ["public"; "css"; "app.css"]) /\
  joinOut root "dist/app.css" (Some "public/css") root <>
    render (path_segments root ++ ["dist"; "public"; "css"; "app.css"]).
Proof.
  intros Hr. pose proof (canonical_absolute root Hr) as Ha.
  pose proof (canonical_good root Hr) as Hg.
  split; [intros; by apply joinOut_relocates|].
  split; [intros; by apply joinOut_in_place|].
  split; [by apply joinOut_spec_example|].
  rewrite joinOut_spec_example by done. intros H.
  apply render_inj in H.
  - by apply app_inv_head in H.
  - apply Forall_app. split; [done|].
    repeat (constructor; [by apply good_literal|]). constructor.
  - apply Forall_app. split; [done|].
    repeat (constructor; [by apply good_literal|]). constructor.
Qed.

Lemma joinOut_destination_override_witness :
  canonical "/srv/site" /\
  joinOut "/srv/site" "dist/app.css" (Some "public/css") "/srv/site"
    = "/srv/site/public/css/app.css".
Proof.
  assert (canonical "/srv/site") as H by (split; reflexivity).
  split; [exact H|].
  exact (proj1 (proj2 (proj2 (joinOut_destination_override "/srv/site" H)))).
Defined.

(** ** The merge *)










Lemma merge_env_string_wins env o f uc v :
  userConfig env o f = Normal uc -> is_empty v = false ->
  (env !! "PACKR_SCSS_INPUT" = Some v -> scss_input uc = Some v) /\
  (env !! "PACKR_SCSS_OUTPUT" = Some v -> scss_output uc = Some v) /\
  (env !! "PACKR_JS_INPUT" = Some v -> js_input uc = Some v) /\
  (env !! "PACKR_JS_OUTPUT" = Some v -> js_output uc = Some v) /\
  (env !! "PACKR_CSS_DESTINATION" = Some v -> css_destination uc = Some v) /\
  (env !! "PACKR_JS_DESTINATION" = Some v -> js_destination uc = Some v) /\
  (env !! "PACKR_TARGET" = Some v -> target uc = v) /\
  (env !! "PACKR_FORMAT" = Some v -> format uc = v) /\
  (env !! "PACKR_ESLINT_CONFIG" = Some v -> eslint_config uc = Some v).
Proof.
  intros H Hv. unfold userConfig in H.
  destruct (split_reserved _) as [res|e]; [|done].
  injection H as <-. simpl.
  repeat split; intros ->; unfold js_or, js_or_lit, truthy;
    repeat (rewrite Hv; simpl); done.
Qed.

(** The fields [minify], [minify_js], [minify_css], [uglify.mangle] and
    [sourcemap] are tri-state in their variable. *)
Lemma merge_tri_state env o f uc :
  userConfig env o f = Normal uc ->
  (forall b, env !! "PACKR_MINIFY" = Some (if b : bool then "true" else "false") ->
             minify uc = b) /\
  (forall b, env !! "PACKR_MINIFY_JS" = Some (if b : bool then "true" else "false") ->
             minify_js uc = b) /\
  (forall b, env !! "PACKR_MINIFY_CSS" = Some (if b : bool then "true" else "false") ->
             minify_css uc = b) /\
  (forall b, env !! "PACKR_UGLIFY_MANGLE" = Some (if b : bool then "true" else "false") ->
             mangle (uglify uc) = b) /\
  (forall b, env !! "PACKR_SOURCEMAP" = Some (if b : bool then "true" else "false") ->
             sourcemap uc = b) /\
  (env_is env "PACKR_MINIFY" "true" = false -> env_is env "PACKR_MINIFY" "false" = false ->
     minify uc = defined_or (o_minify o) (defined_or (f_minify f) true)) /\
  (env_is env "PACKR_SOURCEMAP" "true" = false ->
   env_is env "PACKR_SOURCEMAP" "false" = false ->
     sourcemap uc = defined_or (o_sourcemap o) (defined_or (f_sourcemap f) false)).
Proof.
  intros H. unfold userConfig in H.
  destruct (split_reserved _) as [res|e]; [|done].
  injection H as <-. simpl. unfold merge_default_true, env_is.
  repeat split.
  1-5: by intros [] ->.
  all: by intros -> ->.
Qed.

(** C1 does not hold of the code.  The variables of [keep_fnames],
    [keep_classnames], [verbose] and [eslint] are only compared with
    ['true']: set to ['false'] they do not switch the field off and a
    [true] from the options or the file wins, while [PACKR_SOURCEMAP] set
    to ['false'] does switch its field off. *)
Theorem merge_env_false_not_honoured :
  let env : gmap string string :=
    <["PACKR_VERBOSE" := "false"]> (<["PACKR_ESLINT" := "false"]>
    (<["PACKR_UGLIFY_KEEP_FNAMES" := "false"]> (<["PACKR_SOURCEMAP" := "false"]> ∅))) in
  let o := {| o_config := None; o_scssInput := None; o_scssOutput := None;
              o_jsInput := None; o_jsOutput := None; o_cssDestination := None;
              o_jsDestination := None; o_minify := None; o_minifyJs := None;
              o_minifyCss := None;
              o_uglify := Some {| uo_mangle := None; uo_keepFnames := Some true;
                                  uo_keepClassnames := None; uo_reserved := None |};
              o_target := None; o_watch := None; o_verbose := Some true;
              o_sourcemap := Some true; o_format := None |} in
  let f := {| f_scss_input := None; f_scss_output := None; f_js_input := None;
     f_js_output := None; f_css_destination := None; f_js_destination := None;
     f_minify := None; f_minify_js := None; f_minify_css := None;
     f_uglify := None; f_target := None; f_verbose := None;
     f_sourcemap := None; f_format := None; f_eslint := Some true;
     f_eslint_config := None |} in
  exists uc, userConfig env o f = Normal uc /\
    verbose uc = true /\ keep_fnames (uglify uc) = true /\ eslint uc = true /\
    sourcemap uc = false.
Proof. eexists. split; [vm_compute; reflexivity|]. by vm_compute. Qed.

(** ** The invocation *)

Lemma bind_normal {A B} (m : Eff A) (k : A -> Eff B) a t :
  m = (Normal a, t) -> (m ≫= k) = ((k a).1, (t ++ (k a).2)%list).
Proof. intros ->. unfold mbind, Eff_bind, bind. by destruct (k a). Qed.

Lemma quiet_bind {A B} (m : Eff A) (k : A -> Eff B) :
  quiet m -> (forall a, quiet_if_throws (k a)) -> quiet_if_throws (m ≫= k).
Proof.
  intros Hm Hk e t. destruct m as [[a|e'] tm].
  - rewrite (bind_normal _ _ a tm eq_refl). destruct (k a) as [r tk] eqn:E. simpl.
    intros [= -> <-]. apply Forall_app. split; [exact Hm|]. by apply (Hk a e).
  - intros [= <- <-]. exact Hm.
Qed.

Lemma quiet_lift {A} (c : completion A) : quiet (lift c).
Proof. constructor. Qed.

Lemma quiet_console c : quiet (emit (Console c)).
Proof. by repeat constructor. Qed.

Lemma quiet_bind_all {A B} (m : Eff A) (k : A -> Eff B) :
  quiet m -> (forall a, quiet (k a)) -> quiet (m ≫= k).
Proof.
  intros Hm Hk. destruct m as [[a|e'] tm].
  - rewrite (bind_normal _ _ a tm eq_refl). unfold quiet. simpl.
    apply Forall_app. split; [exact Hm|apply Hk].
  - exact Hm.
Qed.

Lemma quiet_try_handle {A} env (m : Eff A) : quiet m -> quiet (try_handle env m).
Proof.
  destruct m as [[a|e] t]; [done|]. unfold quiet, try_handle, handleError. simpl.
  intros H. apply Forall_app. split; [done|].
  destruct (is_production env); by repeat constructor.
Qed.

Lemma quiet_if_throws_try_handle {A} env (m : Eff A) :
  quiet_if_throws m -> quiet_if_throws (try_handle env m).
Proof.
  intros H e t. destruct m as [[a|e'] tm]; [done|].
  unfold try_handle, handleError. intros [= <- <-].
  apply Forall_app. split; [by apply (H e')|].
  destruct (is_production env); by repeat constructor.
Qed.

Lemma quiet_load_config w o : quiet (load_config w o).
Proof.
  unfold load_config. destruct (truthy (o_config o)); [|constructor].
  apply quiet_try_handle. apply quiet_bind_all; [apply quiet_lift|].
  intros cf. apply quiet_bind_all; [apply quiet_console|]. intros _. constructor.
Qed.

Lemma quiet_make_config root uc dir : quiet (make_config root uc dir).
Proof.
  unfold make_config.
  repeat (apply quiet_bind_all; [apply quiet_lift|intros ?]). constructor.
Qed.

(** Whatever [packr] throws, it has thrown before writing the artifact
    and before starting the worker. *)
Lemma packr_throw_before_effects w o : quiet_if_throws (packr w o).
Proof.
  unfold packr. apply quiet_if_throws_try_handle. unfold packr_body.
  apply quiet_bind; [apply quiet_console|intros _].
  apply quiet_bind; [apply quiet_load_config|intros [cf dir]].
  apply quiet_bind; [apply quiet_lift|intros uc].
  apply quiet_bind; [apply quiet_console|intros _].
  apply quiet_bind; [apply quiet_lift|intros _].
  apply quiet_bind; [apply quiet_make_config|intros c].
  apply quiet_bind; [apply quiet_console|intros _].
  intros e t. unfold mbind, Eff_bind, bind, emit, mret, ret. simpl.
  by destruct (w_exists w _).
Qed.

Lemma validate_required_missing uc :
  truthy (scss_input uc) = false \/ truthy (scss_output uc) = false \/
  truthy (js_input uc) = false \/ truthy (js_output uc) = false ->
  exists key, key ∈ ["scss_input"; "scss_output"; "js_input"; "js_output"] /\
    validate_required required uc = Throw (missing_message key).
Proof.
  intros H. unfold required, validate_required, missing_message.
  destruct (truthy (scss_input uc)); [|exists "scss_input"; split; [by repeat constructor|done]].
  destruct (truthy (scss_output uc)); [|exists "scss_output"; split; [by repeat constructor|done]].
  destruct (truthy (js_input uc)); [|exists "js_input"; split; [by repeat constructor|done]].
  destruct (truthy (js_output uc)); [|exists "js_output"; split; [by repeat constructor|done]].
  by destruct H as [?|[?|[?|?]]].
Qed.

(** C3. When one of the four required fields of the merged configuration
    is missing, [packr] throws the validation error for the first missing
    one, and nothing it has done up to then writes the artifact or starts
    a process. *)
Theorem missing_required_aborts (w : world) (o : options) cf dir t0 uc :
  load_config w o = (Normal (cf, dir), t0) ->
  userConfig (w_env w) o cf = Normal uc ->
  truthy (scss_input uc) = false \/ truthy (scss_output uc) = false \/
  truthy (js_input uc) = false \/ truthy (js_output uc) = false ->
  exists key t,
    key ∈ ["scss_input"; "scss_output"; "js_input"; "js_output"] /\
    packr w o = (Throw (missing_message key), t) /\
    Forall (fun ev => is_write ev = false /\ is_spawn ev = false) t.
Proof.
  intros Hl Hu Hm. destruct (validate_required_missing uc Hm) as (key & Hk & Hv).
  assert (exists t, packr w o = (Throw (missing_message key), t)) as [t Ht].
  { unfold packr, packr_body, mbind, Eff_bind, bind, lift, emit, mret, Eff_ret, ret.
    rewrite Hl, Hu, Hv. unfold try_handle, handleError. eauto. }
  exists key, t. split; [done|]. split; [done|].
  by apply (packr_throw_before_effects w o (missing_message key)).
Qed.

Lemma missing_required_aborts_witness :
  exists key t,
    key ∈ ["scss_input"; "scss_output"; "js_input"; "js_output"] /\
    packr (sample_world empty_file_config) empty_options = (Throw (missing_message key), t) /\
    Forall (fun ev => is_write ev = false /\ is_spawn ev = false) t.
Proof.
  eapply (missing_required_aborts (sample_world empty_file_config) empty_options).
  - reflexivity.
  - vm_compute. reflexivity.
  - left. reflexivity.
Defined.

(** What a returning invocation has done: the configuration was
    loaded, merged, validated and resolved, with harmless events only;
    then the artifact was written; then either the worker was missing, or
    it was started and the promise follows its events. *)
Lemma packr_returns_inv w o out t :
  packr w o = (Normal out, t) ->
  exists cf dir uc c pre,
    (load_config w o).1 = Normal (cf, dir) /\
    userConfig (w_env w) o cf = Normal uc /\
    validate_required required uc = Normal tt /\
    (make_config (w_cwd w) uc dir).1 = Normal c /\
    Forall harmless pre /\
    let configPath := resolve (w_cwd w) [".packr-config.json"] in
    let binaryPath := pjoin [w_dirname w; "bin"; "packr"] in
    let write := WriteFile configPath (make_artifact (w_cwd w) c dir) in
    (w_exists w binaryPath = false /\ t = (pre ++ [write])%list /\
     out = Rejected (binary_missing binaryPath)) \/
    (w_exists w binaryPath = true /\ out = launch_outcome (w_child w) /\
     exists args env, t = (pre ++ [write; Spawn binaryPath args env])%list).
Proof.
  pose proof (quiet_load_config w o) as Hl.
  unfold packr, packr_body, mbind, Eff_bind, bind, lift, emit, mret, Eff_ret, ret.
  destruct (load_config w o) as [[[cf dir]|e] t0] eqn:El; [|done].
  destruct (userConfig (w_env w) o cf) as [uc|e] eqn:Eu; [|done].
  destruct (validate_required required uc) as [[]|e] eqn:Ev; [|done].
  pose proof (quiet_make_config (w_cwd w) uc dir) as Hq.
  destruct (make_config (w_cwd w) uc dir) as [[c|e] tc] eqn:Ec; [|done].
  destruct (w_exists w (pjoin [w_dirname w; "bin"; "packr"])) eqn:Ex;
    cbn [negb fst snd try_handle]; intros [= <- <-];
    exists cf, dir, uc, c, (Console CLog :: t0 ++ Console CLog :: tc ++ [Console CLog])%list;
    (split; [reflexivity|]); (split; [exact Eu|]); (split; [exact Ev|]);
    (split; [by rewrite Ec|]);
    (split; [constructor; [done|]; apply Forall_app; split; [exact Hl|];
             constructor; [done|]; apply Forall_app; split; [exact Hq|];
             by repeat constructor|]); cbn zeta.
  - right. split; [done|]. split; [done|]. eexists _, _.
    simpl. rewrite <- !app_assoc. simpl. rewrite <- !app_assoc. reflexivity.
  - left. split; [done|]. split; [|done].
    simpl. rewrite <- !app_assoc. simpl. rewrite <- !app_assoc. reflexivity.
Qed.

(** ** The launch *)

Lemma settled_stays evs st : st <> Pending -> fold_left on_child_event evs st = st.
Proof.
  revert st. induction evs as [|ev evs IH]; intros st H; [done|].
  simpl. rewrite IH; by destruct st.
Qed.

Lemma launch_outcome_first ev evs :
  launch_outcome (ev :: evs) = on_child_event Pending ev.
Proof.
  unfold launch_outcome. simpl. apply settled_stays.
  destruct ev as [[[| |]|]|]; done.
Qed.

Lemma exit_error_inj c1 c2 : exit_error (Some c1) = exit_error (Some c2) -> c1 = c2.
Proof.
  unfold exit_error. intros [= H]. by apply (inj pretty).
Qed.

Lemma harmless_no_effects t :
  Forall harmless t -> artifacts_written t = [] /\ spawns t = [].
Proof.
  induction 1 as [|ev t [Hw Hs] _ [IH1 IH2]]; [done|].
  destruct ev; try discriminate.
  change (artifacts_written (Console c :: t)) with (artifacts_written t).
  change (spawns (Console c :: t)) with (spawns t). done.
Qed.

Lemma artifacts_written_app t1 t2 :
  artifacts_written (t1 ++ t2) = (artifacts_written t1 ++ artifacts_written t2)%list.
Proof. apply omap_app. Qed.

Lemma spawns_app t1 t2 : spawns (t1 ++ t2) = (spawns t1 ++ spawns t2)%list.
Proof. apply omap_app. Qed.

Lemma spawns_console c t : spawns (Console c :: t) = spawns t.
Proof. reflexivity. Qed.

(** What a returning invocation hands back: with the binary in place it
    has started the worker and returns the promise that follows it;
    without, it has started nothing and the promise is rejected. *)
Lemma packr_outcome w o out t :
  packr w o = (Normal out, t) ->
  let binaryPath := pjoin [w_dirname w; "bin"; "packr"] in
  if w_exists w binaryPath
  then Exists (fun e => is_spawn e = true) t /\ out = launch_outcome (w_child w)
  else Forall (fun e => is_spawn e = false) t /\ out = Rejected (binary_missing binaryPath).
Proof.
  intros H.
  destruct (packr_returns_inv w o out t H)
    as (cf & dir & uc & c & pre & _ & _ & _ & _ & Hpre & Hcases).
  cbn zeta in *.
  destruct Hcases as [(Hex & -> & ->)|(Hex & -> & args & env & ->)]; rewrite Hex.
  - split; [|done]. apply Forall_app. split; [|by repeat constructor].
    eapply Forall_impl; [exact Hpre|]. by intros ev [_ ?].
  - split; [|done]. apply Exists_app. right. apply Exists_cons_tl. by apply Exists_cons_hd.
Qed.

(** C6. The promise follows the first event of the worker: it is
    fulfilled exactly when that event is an exit with status zero; any
    other exit rejects it with an error that carries the status (distinct
    statuses give distinct errors, status 2 gives the message ending in
    [code 2]); a spawn error rejects it with that very error.  This is
    the outcome a returning [packr] hands to its caller: with the binary
    in place it has started the worker and returns exactly this promise;
    without the binary nothing is started and the promise is rejected, so
    it is never fulfilled without a worker that exited with status
    zero. *)
Theorem launch_outcome_by_exit_status (evs : list child_event) :
  (launch_outcome evs = Fulfilled <-> head evs = Some (Close (Some 0%Z))) /\
  (forall code, head evs = Some (Close code) -> code <> Some 0%Z ->
     launch_outcome evs = Rejected (exit_error code)) /\
  (forall err, head evs = Some (ChildError err) -> launch_outcome evs = Rejected err) /\
  (forall c1 c2, exit_error (Some c1) = exit_error (Some c2) -> c1 = c2) /\
  exit_error (Some 2%Z) = Error "Packr process exited with code 2" /\
  (forall w o out t, packr w o = (Normal out, t) -> w_child w = evs ->
     let binaryPath := pjoin [w_dirname w; "bin"; "packr"] in
     if w_exists w binaryPath
     then Exists (fun e => is_spawn e = true) t /\ out = launch_outcome evs
     else Forall (fun e => is_spawn e = false) t /\
          out = Rejected (binary_missing binaryPath)).
Proof.
  split; [|split; [|split; [|split; [|split]]]].
  - destruct evs as [|ev evs]; [done|]. rewrite launch_outcome_first. simpl.
    destruct ev as [[[| |]|]|]; by split.
  - intros code Hh Hc. destruct evs as [|ev evs]; [done|].
    injection Hh as ->. rewrite launch_outcome_first.
    destruct code as [[| |]|]; done.
  - intros err Hh. destruct evs as [|ev evs]; [done|].
    injection Hh as ->. by rewrite launch_outcome_first.
  - apply exit_error_inj.
  - reflexivity.
  - intros w o out t H <-. exact (packr_outcome w o out t H).
Qed.

Lemma launch_outcome_by_exit_status_witness :
  exists t,
    packr failing_world sample_options
      = (Normal (Rejected (Error "Packr process exited with code 2")), t) /\
    Exists (fun e => is_spawn e = true) t.
Proof.
  assert (exists out t, packr failing_world sample_options = (Normal out, t))
    as (out & t & H) by (eexists _, _; vm_compute; reflexivity).
  destruct (proj2 (proj2 (proj2 (proj2 (proj2
              (launch_outcome_by_exit_status [Close (Some 2%Z)])))))
              failing_world sample_options out t H eq_refl) as [Hs Ho].
  exists t. split; [|exact Hs]. rewrite H, Ho. reflexivity.
Defined.

(** ** Path fields of the resolved configuration *)

Lemma make_config_sandboxed root uc dir c t :
  make_config root uc dir = (Normal c, t) ->
  resolveSafe root (defined_or (scss_input uc) "") dir = Normal (c_scss_input c) /\
  resolveSafe root (defined_or (scss_output uc) "") dir = Normal (c_scss_output c) /\
  resolveSafe root (defined_or (js_input uc) "") dir = Normal (c_js_input c) /\
  resolveSafe root (defined_or (js_output uc) "") dir = Normal (c_js_output c) /\
  resolve_optional root (css_destination uc) dir = Normal (c_css_destination c) /\
  resolve_optional root (js_destination uc) dir = Normal (c_js_destination c) /\
  eslint_config (c_user c) = eslint_config uc.
Proof.
  unfold make_config, mbind, Eff_bind, bind, lift, mret, Eff_ret, ret.
  destruct (resolveSafe root (defined_or (scss_input uc) "") dir); [|done].
  destruct (resolveSafe root (defined_or (scss_output uc) "") dir); [|done].
  destruct (resolveSafe root (defined_or (js_input uc) "") dir); [|done].
  destruct (resolveSafe root (defined_or (js_output uc) "") dir); [|done].
  destruct (resolve_optional root (css_destination uc) dir); [|done].
  destruct (resolve_optional root (js_destination uc) dir); [|done].
  by intros [= <- <-].
Qed.

Lemma load_config_dir w o cf dir t :
  load_config w o = (Normal (cf, dir), t) ->
  dir = if truthy (o_config o)
        then dirname (resolve (w_cwd w) [defined_or (o_config o) ""])
        else w_cwd w.
Proof.
  unfold load_config. destruct (truthy (o_config o)).
  - unfold try_handle, mbind, Eff_bind, bind, lift, emit, mret, Eff_ret, ret.
    destruct (w_read_config w _); [|done]. by intros [= <- <- <-].
  - by intros [= <- <- <-].
Qed.

(** The six path fields that reach the artifact have gone through
    [resolveSafe] against the directory of the config file, or the working
    directory when none was given. *)
Lemma packr_paths_sandboxed w o out t :
  packr w o = (Normal out, t) ->
  exists cf uc c,
    let dir := if truthy (o_config o)
               then dirname (resolve (w_cwd w) [defined_or (o_config o) ""])
               else w_cwd w in
    userConfig (w_env w) o cf = Normal uc /\
    resolveSafe (w_cwd w) (defined_or (scss_input uc) "") dir = Normal (c_scss_input c) /\
    resolveSafe (w_cwd w) (defined_or (scss_output uc) "") dir = Normal (c_scss_output c) /\
    resolveSafe (w_cwd w) (defined_or (js_input uc) "") dir = Normal (c_js_input c) /\
    resolveSafe (w_cwd w) (defined_or (js_output uc) "") dir = Normal (c_js_output c) /\
    resolve_optional (w_cwd w) (css_destination uc) dir = Normal (c_css_destination c) /\
    resolve_optional (w_cwd w) (js_destination uc) dir = Normal (c_js_destination c) /\
    WriteFile (resolve (w_cwd w) [".packr-config.json"]) (make_artifact (w_cwd w) c dir) ∈ t.
Proof.
  intros H.
  destruct (packr_returns_inv w o out t H)
    as (cf & dir & uc & c & pre & Hl & Hu & _ & Hc & _ & Hcases).
  destruct (load_config w o) as [r t0] eqn:El. simpl in Hl. subst r.
  apply load_config_dir in El.
  destruct (make_config (w_cwd w) uc dir) as [r tc] eqn:Ec. simpl in Hc. subst r.
  apply make_config_sandboxed in Ec as (H1 & H2 & H3 & H4 & H5 & H6 & _).
  exists cf, uc, c. cbn zeta. rewrite <- El.
  repeat (split; [done|]).
  destruct Hcases as [(_ & -> & _)|(_ & _ & args & env & ->)];
    apply elem_of_app; right; by constructor.
Qed.





(** ** The environment loader *)

Lemma c_string_idem s : c_string (c_string s) = c_string s.
Proof.
  induction s as [|c s IH]; [done|]. cbn [c_string].
  destruct (Ascii.eqb c zero) eqn:E; [done|]. cbn [c_string]. by rewrite E, IH.
Qed.

Lemma store_lookup name value (env : gmap string string) k :
  store name value env !! k =
    if String.eqb (c_string name) k && negb (is_empty k)
    then Some (c_string value) else env !! k.
Proof.
  unfold store. destruct (String.eqb (c_string name) k) eqn:E.
  - apply String.eqb_eq in E as <-. destruct (is_empty (c_string name)); [done|].
    cbn [andb negb]. by rewrite lookup_insert_eq.
  - apply String.eqb_neq in E. cbn [andb].
    destruct (is_empty (c_string name)); [done|]. by rewrite lookup_insert_ne.
Qed.

Lemma store_keeps name value (env : gmap string string) k :
  is_Some (env !! k) -> is_Some (store name value env !! k).
Proof. rewrite store_lookup. by destruct (_ && _). Qed.

Lemma load_override_lookup kvs (env : gmap string string) k :
  fold_left (assign true) kvs env !! k =
    match overrides k kvs with Some v => Some v | None => env !! k end.
Proof.
  revert env. induction kvs as [|kv kvs IH]; intros env; [done|].
  simpl. rewrite IH. destruct (overrides k kvs); [done|].
  unfold assign. cbn [orb]. rewrite store_lookup. by destruct (_ && _).
Qed.


Lemma loadEnvFromFile_present fs path override env env' file :
  fs !! path = Some file ->
  loadEnvFromFile fs path override env = (Normal tt, env') ->
  exists content,
    ef_content file = Normal content /\
    env' = fold_left (assign override) (parse_lines content) env.
Proof.
  unfold loadEnvFromFile. intros ->.
  destruct (ef_mode file) as [mode|?]; [|done].
  destruct (negb (mode =? 384)%N && is_production env); [done|].
  destruct (ef_content file) as [content|?]; [|done].
  intros [= <-]. by exists content.
Qed.

(** A load that throws has assigned nothing. *)
Lemma loadEnvFromFile_throw fs path override env e env' :
  loadEnvFromFile fs path override env = (Throw e, env') -> env' = env.
Proof.
  unfold loadEnvFromFile. destruct (fs !! path) as [file|]; [|done].
  destruct (ef_mode file) as [mode|?]; [|by intros [= _ <-]].
  destruct (negb (mode =? 384)%N && is_production env); [by intros [= _ <-]|].
  by destruct (ef_content file); [|intros [= _ <-]].
Qed.

(** The load of a file that can be read and that the permission check
    lets through *)
Lemma loadEnvFromFile_open fs path override env file mode content :
  fs !! path = Some file ->
  ef_mode file = Normal mode -> ef_content file = Normal content ->
  is_production env = false \/ mode = 384%N ->
  loadEnvFromFile fs path override env
    = (Normal tt, fold_left (assign override) (parse_lines content) env).
Proof.
  intros Hf Hm Hc Hp. unfold loadEnvFromFile. rewrite Hf, Hm, Hc.
  destruct Hp as [-> | ->]; [by rewrite andb_false_r|done].
Qed.

Lemma production_checks_state env : (production_checks env).2 = env.
Proof.
  unfold production_checks.
  destruct (negb (List.length (filter _ requiredVars) =? 0)%nat); [done|].
  by destruct (negb (List.length _ =? 0)%nat).
Qed.

(** C5. In development mode with a local file present, after the base
    load and the environment-specific load: a value that
    [PACKR_SOURCEMAP] had after the environment-specific load is still there
    after [loadEnvFiles], whatever the local file holds and however its
    load ends.  When the local file can be read and is let through by the
    permission check, loading completes and every other name has the
    value the local file gives it last, or its earlier value if the local
    file does not set it; and [PACKR_SOURCEMAP] itself takes the local
    value only if it was not set before.  When the load of the local file
    throws, [loadEnvFiles] throws that error and nothing of the file is
    assigned. *)
Theorem local_file_keeps_sourcemap (fs : gmap string env_file)
    (env0 env1 env2 : gmap string string) (local : env_file) :
  loadEnvFromFile fs ".env" false env0 = (Normal tt, env1) ->
  js_or_lit (env1 !! "NODE_ENV") "development" = "development" ->
  loadEnvFromFile fs ".env-development" true env1 = (Normal tt, env2) ->
  fs !! ".env-local" = Some local ->
  (forall v, env2 !! "PACKR_SOURCEMAP" = Some v ->
     (loadEnvFiles fs env0).2 !! "PACKR_SOURCEMAP" = Some v) /\
  (forall mode content,
     ef_mode local = Normal mode -> ef_content local = Normal content ->
     is_production env2 = false \/ mode = 384%N ->
     exists env3,
       loadEnvFiles fs env0 = (Normal tt, env3) /\
       (forall k, k <> "PACKR_SOURCEMAP" ->
          env3 !! k = match overrides k (parse_lines content) with
                      | Some v => Some v
                      | None => env2 !! k
                      end) /\
       (env2 !! "PACKR_SOURCEMAP" = None ->
          env3 !! "PACKR_SOURCEMAP" = overrides "PACKR_SOURCEMAP" (parse_lines content))) /\
  (forall e env', loadEnvFromFile fs ".env-local" true env2 = (Throw e, env') ->
     loadEnvFiles fs env0 = (Throw e, env2)).
Proof.
  intros H1 Hn H2 Hl.
  assert (forall r env',
            loadEnvFromFile fs ".env-local" true env2 = (r, env') ->
            loadEnvFiles fs env0 =
              match r with
              | Normal _ =>
                  (Normal tt, match env2 !! "PACKR_SOURCEMAP" with
                              | Some v => <["PACKR_SOURCEMAP" := v]> env'
                              | None => env'
                              end)
              | Throw e => (Throw e, env')
              end) as Hrun.
  { intros r env' H3.
    unfold loadEnvFiles, mbind, Load_bind, load_bind, get_env, set_env, mret, Load_ret.
    rewrite H1. cbv beta iota zeta. rewrite Hn.
    change (".env-" +:+ "development") with ".env-development".
    change (String.eqb "development" "development") with true.
    change (String.eqb "development" "production") with false.
    rewrite H2. rewrite bool_decide_eq_true_2 by (rewrite Hl; eauto).
    cbv beta iota zeta. cbn [andb]. rewrite H3. cbv beta iota zeta.
    destruct r as [[]|e]; [|done]. by destruct (env2 !! "PACKR_SOURCEMAP"). }
  split; [|split].
  - intros v Hv.
    destruct (loadEnvFromFile fs ".env-local" true env2) as [r env'] eqn:H3.
    rewrite (Hrun r env' eq_refl). destruct r as [[]|e]; cbn [snd].
    + rewrite Hv. by rewrite lookup_insert_eq.
    + by rewrite (loadEnvFromFile_throw _ _ _ _ _ _ H3).
  - intros mode content Hm Hc Hp.
    pose proof (loadEnvFromFile_open fs ".env-local" true env2 local mode content
                  Hl Hm Hc Hp) as H3.
    rewrite (Hrun _ _ H3). eexists. split; [reflexivity|]. split.
    + intros k Hk. destruct (env2 !! "PACKR_SOURCEMAP");
        rewrite ?lookup_insert_ne by done; apply load_override_lookup.
    + intros Hs. rewrite Hs, load_override_lookup, Hs. by destruct (overrides _ _).
  - intros e env' H3. rewrite (Hrun _ _ H3).
    by rewrite (loadEnvFromFile_throw _ _ _ _ _ _ H3).
Qed.

Lemma local_file_keeps_sourcemap_witness :
  exists env3,
    loadEnvFiles development_fs ∅ = (Normal tt, env3) /\
    env3 !! "PACKR_SOURCEMAP" = Some "true" /\
    env3 !! "PACKR_MINIFY" = Some "false".
Proof.
  destruct (local_file_keeps_sourcemap development_fs ∅
              (<["PACKR_SOURCEMAP" := "false"]> ∅)
              (<["PACKR_MINIFY" := "true"]> (<["PACKR_SOURCEMAP" := "true"]> ∅))
              {| ef_mode := Normal 420%N; ef_content := Normal local_content |})
    as (Hs & Hopen & _).
  - vm_compute. reflexivity.
  - reflexivity.
  - vm_compute. reflexivity.
  - reflexivity.
  - destruct (Hopen 420%N local_content eq_refl eq_refl (or_introl eq_refl))
      as (env3 & E & Ho & _).
    exists env3. split; [exact E|]. split.
    + specialize (Hs "true" eq_refl). rewrite E in Hs. exact Hs.
    + rewrite Ho by done. reflexivity.
Defined.

(** ** Load order *)




(** The membership test uses the key as written and the assignment
    the trimmed key: a line with a blank before [=] replaces a variable
    that is already set. *)
Remark base_load_replaces_spaced_key :
  let fs : gmap string env_file :=
    <[".env" := {| ef_mode := Normal 384%N; ef_content := Normal "FOO = 1" |}]> ∅ in
  let env0 : gmap string string := <["FOO" := "0"]> ∅ in
  loadEnvFiles fs env0 = (Normal tt, <["FOO" := "1"]> ∅).
Proof. vm_compute. reflexivity. Qed.

(** * Further properties of the code *)

(** ** More on the sandbox check *)

(** X1. On resolved paths [isPathInside] accepts exactly the root and
    the paths below it whose first name below the root does not begin
    with two dots. *)
Theorem isPathInside_exact (cwd root child : string) :
  canonical root -> canonical child ->
  (isPathInside cwd child root = true <->
   exists rest,
     path_segments child = (path_segments root ++ rest)%list /\
     forall x, head rest = Some x -> startsWith ".." x = false).
Proof.
  intros Hr Hc. split.
  - intros Hin. destruct (isPathInside_canonical cwd child root Hr Hc Hin) as [rest Hrest].
    exists rest. split; [done|]. intros x Hx.
    destruct rest as [|y more]; [done|]. injection Hx as ->.
    revert Hin. unfold isPathInside. rewrite relative_canonical by done.
    destruct (String.eqb root child) eqn:E.
    { apply String.eqb_eq in E. subst child.
      apply (f_equal (@List.length string)) in Hrest.
      rewrite length_app in Hrest. simpl in Hrest. lia. }
    rewrite Hrest, drop_common_prefix. cbn [fst snd repeat List.length app].
    pose proof (canonical_good child Hc) as Hg. rewrite Hrest in Hg.
    apply Forall_app in Hg as [_ Hg].
    rewrite startsWith_up_join by (by inversion Hg).
    by destruct (startsWith ".." x).
  - intros (rest & Hrest & Hx). by apply (isPathInside_below cwd root child rest).
Qed.

Lemma isPathInside_exact_witness :
  isPathInside "/" "/proj/src/app.js" "/proj" = true.
Proof.
  apply (isPathInside_exact "/" "/proj" "/proj/src/app.js").
  - split; reflexivity.
  - split; reflexivity.
  - exists ["src"; "app.js"]. split; [reflexivity|]. by intros x [= <-].
Defined.

(** ** More on the invocation *)

(** X2. Whatever [packr] throws (a config file that cannot be read, a
    [reserved] that is not a string, a missing field, an unsafe path), it
    has thrown before writing the artifact and before starting a
    process. *)
Theorem packr_throw_writes_nothing (w : world) (o : options) (e : js_error)
    (t : list event) :
  packr w o = (Throw e, t) -> artifacts_written t = [] /\ spawns t = [].
Proof. intros H. apply harmless_no_effects. by apply (packr_throw_before_effects w o e). Qed.

Lemma packr_throw_writes_nothing_witness :
  exists e t,
    packr (sample_world empty_file_config) empty_options = (Throw e, t) /\
    artifacts_written t = [] /\ spawns t = [].
Proof.
  eexists _, _. split; [vm_compute; reflexivity|].
  eapply (packr_throw_writes_nothing (sample_world empty_file_config) empty_options).
  vm_compute. reflexivity.
Defined.

(** X3. When [packr] returns, it has written exactly one artifact, and
    the four required fields of the configuration merged from the
    environment, the options and the config file it loaded were all
    present.  If the worker binary is
    missing, no process is started and the promise is rejected with the
    message naming the expected path: the artifact has been written all
    the same.  Otherwise exactly one process is started, on the artifact
    path, with [--watch] appended exactly when the watch option is
    [true], and the promise follows that process. *)
Theorem packr_returns_shape (w : world) (o : options) (out : outcome)
    (t : list event) :
  packr w o = (Normal out, t) ->
  let configPath := resolve (w_cwd w) [".packr-config.json"] in
  let binaryPath := pjoin [w_dirname w; "bin"; "packr"] in
  (exists a, artifacts_written t = [a] /\
             Exists (fun ev => exists a', ev = WriteFile configPath a') t) /\
  (exists cf dir uc,
     (load_config w o).1 = Normal (cf, dir) /\
     userConfig (w_env w) o cf = Normal uc /\
     truthy (scss_input uc) = true /\ truthy (scss_output uc) = true /\
     truthy (js_input uc) = true /\ truthy (js_output uc) = true) /\
  (if w_exists w binaryPath
   then spawns t = [(binaryPath,
                     configPath :: if o_watch o is Some true then ["--watch"] else [])] /\
        out = launch_outcome (w_child w)
   else spawns t = [] /\ out = Rejected (binary_missing binaryPath)).
Proof.
  intros H.
  destruct (packr_returns_inv w o out t H)
    as (cf & dir & uc & c & pre & Hload & Hu & Hv & _ & Hpre & Hcases).
  destruct (harmless_no_effects pre Hpre) as [Ha Hs].
  cbn zeta in *. split; [|split].
  - destruct Hcases as [(_ & -> & _)|(_ & _ & args & env & ->)];
      rewrite artifacts_written_app, Ha; (eexists; split; [reflexivity|]);
      apply Exists_app; right; apply Exists_cons_hd; by eexists.
  - exists cf, dir, uc. split; [done|]. split; [done|].
    revert Hv. unfold required, validate_required.
    destruct (truthy (scss_input uc)); [|done].
    destruct (truthy (scss_output uc)); [|done].
    destruct (truthy (js_input uc)); [|done].
    by destruct (truthy (js_output uc)).
  - destruct Hcases as [(-> & -> & ->)|(Hex & -> & _)].
    + by rewrite spawns_app, Hs.
    + rewrite Hex. split; [|done].
      (* the arguments are read off the evaluation itself *)
      revert H. unfold packr, packr_body, mbind, Eff_bind, bind, lift, emit, mret, Eff_ret, ret.
      destruct (load_config w o) as [[[cf' dir']|e'] t0] eqn:El; [|done].
      pose proof (quiet_load_config w o) as Hl. rewrite El in Hl.
      destruct (userConfig (w_env w) o cf') as [uc'|e']; [|done].
      destruct (validate_required required uc') as [[]|e']; [|done].
      pose proof (quiet_make_config (w_cwd w) uc' dir') as Hq.
      destruct (make_config (w_cwd w) uc' dir') as [[c'|e'] tc]; [|done].
      destruct (w_exists w (pjoin [w_dirname w; "bin"; "packr"])) eqn:Ex.
      * cbn [negb fst snd try_handle]. intros [= <-].
        destruct (harmless_no_effects t0 Hl) as [_ Hs0].
        destruct (harmless_no_effects tc Hq) as [_ Hsc].
        rewrite spawns_console, spawns_app, Hs0, spawns_console, spawns_app, Hsc.
        cbn [app]. rewrite spawns_console. unfold spawns. cbn [omap].
        by destruct (o_watch o) as [[|]|].
      * congruence.
Qed.

Lemma packr_returns_shape_witness :
  exists out t,
    packr (sample_world sample_file) sample_options = (Normal out, t) /\
    spawns t = [("/proj/node_modules/packr/bin/packr", ["/proj/.packr-config.json"])] /\
    out = Fulfilled.
Proof.
  assert (exists out t, packr (sample_world sample_file) sample_options = (Normal out, t))
    as (out & t & H) by (eexists _, _; vm_compute; reflexivity).
  exists out, t. split; [exact H|].
  destruct (packr_returns_shape (sample_world sample_file) sample_options out t H)
    as (_ & _ & Hs).
  exact Hs.
Defined.

Lemma normalize_canonical ds : Forall good_seg ds -> normalize (render ds) = render ds.
Proof.
  intros Hd. unfold normalize.
  assert (is_empty (render ds) = false) as -> by reflexivity.
  assert (isAbsolute (render ds) = true) as -> by reflexivity.
  cbn [negb]. unfold normalizeString, normalize_segments.
  rewrite fold_split_render, app_nil_r, rev_involutive by done.
  destruct ds as [|d ds] using rev_ind; [reflexivity|].
  apply Forall_app in Hd as [Hd Hb]. inversion Hb as [|? ? Hg _]; subst.
  assert (is_empty (join "/" (ds ++ [d])) = false) as ->.
  { destruct ds as [|x ds]; simpl.
    - by apply good_seg_nonempty.
    - destruct (ds ++ [d])%list eqn:E; [by destruct ds|].
      inversion Hd as [|? ? Hx _]; subst. apply good_seg_nonempty in Hx. by destruct x. }
  assert (ends_with_sep (render (ds ++ [d])) = false) as ->; [|done].
  destruct (decide (ds = [])) as [->|Hne].
  - change (render ([] ++ [d])) with ("" +:+ String sep d). by apply ends_with_sep_name.
  - rewrite render_cons, join_snoc by done.
    change (String sep (join "/" ds +:+ String sep d))
      with (String sep (join "/" ds) +:+ String sep d).
    by apply ends_with_sep_name.
Qed.

Lemma pjoin_dir_only ds : Forall good_seg ds -> pjoin [render ds; ""] = render ds.
Proof.
  intros Hd. unfold pjoin.
  rewrite filter_cons_True by reflexivity.
  rewrite filter_cons_False by (simpl; congruence). rewrite filter_nil.
  change (join "/" [render ds]) with (render ds). by apply normalize_canonical.
Qed.

Lemma joinOut_rendered cwd os ds dir :
  isAbsolute cwd = true -> Forall good_seg os -> Forall good_seg ds ->
  joinOut cwd (render os) (Some (render ds)) dir =
    render (ds ++ match last os with Some b => [b] | None => [] end).
Proof.
  intros Hc Ho Hd. unfold joinOut. cbn [truthy defined_or].
  assert (is_empty (render ds) = false) as -> by reflexivity. cbn [negb].
  rewrite (resolve_canonical_2 cwd dir (render os)) by (by apply canonical_render).
  rewrite (resolve_canonical_2 cwd dir (render ds)) by (by apply canonical_render).
  unfold basename. rewrite path_segments_render by done.
  destruct os as [|b os _] using rev_ind.
  - cbn [List.last last]. rewrite pjoin_dir_only by done. by rewrite app_nil_r.
  - apply Forall_app in Ho as [_ Hb]. inversion Hb as [|? ? Hg _]; subst.
    rewrite List.last_last, last_snoc. by apply pjoin_dir_name.
Qed.

(** Where [joinOut] puts a resolved output, given a resolved
    destination or none *)
Lemma joinOut_resolved cwd out dest dir :
  isAbsolute cwd = true -> canonical out ->
  match dest with Some d => canonical d | None => True end ->
  canonical (joinOut cwd out dest dir) /\
  path_segments (joinOut cwd out dest dir) =
    match dest with
    | Some d => (path_segments d ++
                 match last (path_segments out) with Some b => [b] | None => [] end)%list
    | None => path_segments out
    end.
Proof.
  intros Hc Ho Hd. destruct dest as [d|].
  - pose proof (canonical_good d Hd) as Hgd. pose proof (canonical_good out Ho) as Hgo.
    destruct Hd as [Ed _]. destruct Ho as [Eo _].
    rewrite Ed at 1 2. rewrite Eo at 1 2.
    rewrite joinOut_rendered by done.
    assert (Forall good_seg (path_segments d ++
              match last (path_segments out) with Some b => [b] | None => [] end)) as Hg.
    { apply Forall_app. split; [done|].
      destruct (path_segments out) as [|b os _] using rev_ind; [done|].
      rewrite last_snoc. apply Forall_app in Hgo as [_ Hb]. done. }
    split; [by apply canonical_render|by apply path_segments_render].
  - rewrite joinOut_in_place by done.
    rewrite (resolve_canonical_2 cwd dir out Ho). done.
Qed.

Lemma resolve_optional_inside root p dir r :
  canonical root ->
  resolve_optional root p dir = Normal r ->
  match r with Some d => canonical d /\ inside_root root d | None => True end.
Proof.
  intros Hr. unfold resolve_optional. destruct (truthy p); [|by intros [= <-]].
  destruct (resolveSafe root (defined_or p "") dir) as [d|e] eqn:E; [|done].
  intros [= <-]. by destruct (resolveSafe_inside root _ dir d Hr E) as (_ & ? & ?).
Qed.

(** X4. Every path written to the artifact is an absolute path in
    resolved form that lies inside the project root: the two inputs, and
    the two outputs after normalisation, with or without a destination
    directory. *)
Theorem artifact_paths_inside_root (w : world) (o : options) (out : outcome)
    (t : list event) (a : artifact) :
  canonical (w_cwd w) ->
  packr w o = (Normal out, t) ->
  a ∈ artifacts_written t ->
  (canonical (a_scss_input a) /\ inside_root (w_cwd w) (a_scss_input a)) /\
  (canonical (a_scss_output a) /\ inside_root (w_cwd w) (a_scss_output a)) /\
  (canonical (a_js_input a) /\ inside_root (w_cwd w) (a_js_input a)) /\
  (canonical (a_js_output a) /\ inside_root (w_cwd w) (a_js_output a)).
Proof.
  intros Hr H Ha. pose proof (canonical_absolute _ Hr) as Habs.
  destruct (packr_returns_inv w o out t H)
    as (cf & dir & uc & c & pre & _ & _ & _ & Hc & Hpre & Hcases).
  destruct (harmless_no_effects pre Hpre) as [Hw _].
  assert (a = make_artifact (w_cwd w) c dir) as ->.
  { cbn zeta in Hcases.
    destruct Hcases as [(_ & -> & _)|(_ & _ & args & env & ->)];
      rewrite artifacts_written_app, Hw in Ha; cbn in Ha;
      by apply list_elem_of_singleton in Ha. }
  destruct (make_config (w_cwd w) uc dir) as [r tc] eqn:Ec. simpl in Hc. subst r.
  apply make_config_sandboxed in Ec as (H1 & H2 & H3 & H4 & H5 & H6 & _).
  destruct (resolveSafe_inside _ _ _ _ Hr H1) as (_ & C1 & I1).
  destruct (resolveSafe_inside _ _ _ _ Hr H2) as (_ & C2 & I2).
  destruct (resolveSafe_inside _ _ _ _ Hr H3) as (_ & C3 & I3).
  destruct (resolveSafe_inside _ _ _ _ Hr H4) as (_ & C4 & I4).
  pose proof (resolve_optional_inside _ _ _ _ Hr H5) as D5.
  pose proof (resolve_optional_inside _ _ _ _ Hr H6) as D6.
  assert (forall outp dest,
            canonical outp -> inside_root (w_cwd w) outp ->
            match dest with Some d => canonical d /\ inside_root (w_cwd w) d | None => True end ->
            canonical (joinOut (w_cwd w) outp dest dir) /\
            inside_root (w_cwd w) (joinOut (w_cwd w) outp dest dir)) as Hjoin.
  { intros outp dest Co Io Hd.
    destruct (joinOut_resolved (w_cwd w) outp dest dir Habs Co) as [Cj Sj].
    { destruct dest; [by destruct Hd|done]. }
    split; [done|]. unfold inside_root. rewrite Sj.
    destruct dest as [d|]; [|done]. destruct Hd as [_ Id]. by apply prefix_app_r. }
  unfold make_artifact. cbn [a_scss_input a_scss_output a_js_input a_js_output].
  split; [by split|]. split; [by apply Hjoin|]. split; [by split|]. by apply Hjoin.
Qed.

Lemma artifact_paths_inside_root_witness :
  exists out t a,
    canonical "/proj" /\
    packr (sample_world sample_file) sample_options = (Normal out, t) /\
    artifacts_written t = [a] /\
    inside_root "/proj" (a_scss_output a) /\ inside_root "/proj" (a_js_output a).
Proof.
  assert (canonical "/proj") as Hr by (split; reflexivity).
  assert (exists out t a,
            packr (sample_world sample_file) sample_options = (Normal out, t) /\
            artifacts_written t = [a])
    as (out & t & a & H & Ha) by (eexists _, _, _; split; vm_compute; reflexivity).
  exists out, t, a. split; [exact Hr|]. split; [exact H|]. split; [exact Ha|].
  destruct (artifact_paths_inside_root (sample_world sample_file) sample_options out t a Hr H)
    as (_ & (_ & H2) & _ & (_ & H4)).
  - rewrite Ha. apply list_elem_of_here.
  - split; [exact H2|exact H4].
Defined.

(** ** [watch] *)

Lemma artifacts_console c t : artifacts_written (Console c :: t) = artifacts_written t.
Proof. reflexivity. Qed.

Lemma spawns_try_handle_throw {A} env e L :
  spawns L = [] -> spawns (try_handle env (@Throw A e, L)).2 = [].
Proof.
  intros H. unfold try_handle, handleError. cbn [snd].
  rewrite spawns_app, H. by destruct (is_production env).
Qed.

Ltac throw_case :=
  split; [reflexivity|]; split; [reflexivity|];
  rewrite spawns_try_handle_throw; [reflexivity|];
  cbn [app]; rewrite ?spawns_console, ?spawns_app;
  repeat match goal with H : spawns _ = [] |- _ => rewrite H end;
  cbn [app]; rewrite ?spawns_console, ?spawns_app;
  repeat match goal with H : spawns _ = [] |- _ => rewrite H end;
  reflexivity.

(** X5. [watch] ends as [packr] does and writes the same artifact; where
    it starts the worker, the arguments are the artifact path followed by
    [--watch], whatever the watch option of the caller says. *)
Theorem watch_is_packr_with_flag (w : world) (o : options) :
  (watch w o).1 = (packr w o).1 /\
  artifacts_written (watch w o).2 = artifacts_written (packr w o).2 /\
  spawns (watch w o).2 =
    map (fun s => (s.1, [resolve (w_cwd w) [".packr-config.json"]; "--watch"]))
        (spawns (packr w o).2).
Proof.
  unfold watch, packr, packr_body, mbind, Eff_bind, bind, lift, emit, mret, Eff_ret, ret.
  unfold load_config. cbn [o_config o_watch js_or_bool].
  change (userConfig (w_env w) {| o_config := o_config o; o_scssInput := o_scssInput o;
             o_scssOutput := o_scssOutput o; o_jsInput := o_jsInput o;
             o_jsOutput := o_jsOutput o; o_cssDestination := o_cssDestination o;
             o_jsDestination := o_jsDestination o; o_minify := o_minify o;
             o_minifyJs := o_minifyJs o; o_minifyCss := o_minifyCss o;
             o_uglify := o_uglify o; o_target := o_target o;
             o_watch := Some true; o_verbose := o_verbose o;
             o_sourcemap := o_sourcemap o; o_format := o_format o |})
    with (userConfig (w_env w) o).
  pose proof (quiet_load_config w o) as Hl. unfold load_config in Hl.
  destruct (if truthy (o_config o) then _ else _) as [r0 t0].
  destruct (harmless_no_effects t0 Hl) as [_ Hs0].
  destruct r0 as [[cf dir]|e]; [|by throw_case].
  destruct (userConfig (w_env w) o cf) as [uc|e]; [|by throw_case].
  destruct (validate_required required uc) as [[]|e]; [|by throw_case].
  pose proof (quiet_make_config (w_cwd w) uc dir) as Hq.
  destruct (make_config (w_cwd w) uc dir) as [rc tc].
  destruct (harmless_no_effects tc Hq) as [_ Hsc].
  destruct rc as [c|e]; [|by throw_case].
  destruct (w_exists w (pjoin [w_dirname w; "bin"; "packr"]));
    cbn [negb fst snd try_handle]; (split; [reflexivity|]).
  - split.
    + cbn [app].
      rewrite !artifacts_console, !artifacts_written_app, !artifacts_console,
        !artifacts_written_app. cbn [app]. by rewrite !artifacts_console.
    + cbn [app].
      rewrite !spawns_console, !spawns_app, Hs0, !spawns_console, !spawns_app, Hsc.
      cbn [app]. rewrite !spawns_console. reflexivity.
  - split; [reflexivity|]. cbn [app].
    rewrite !spawns_console, !spawns_app, Hs0, !spawns_console, !spawns_app, Hsc.
    reflexivity.
Qed.

(** ** The [reserved] list *)

Lemma join_split c s : join (String c "") (split_on c s) = s.
Proof.
  induction s as [|a s IH]; [done|]. simpl.
  pose proof (split_on_nonempty c s) as Hne.
  destruct (Ascii.eqb a c) eqn:E.
  - apply Ascii.eqb_eq in E as ->.
    destruct (split_on c s) as [|h t] eqn:Es; [done|].
    change (join (String c "") ("" :: h :: t))
      with (String c (join (String c "") (h :: t))). by rewrite IH.
  - destruct (split_on c s) as [|h t] eqn:Es; [done|].
    rewrite <- IH. by destruct t.
Qed.

Lemma filter_names names :
  Forall reserved_name names -> filter (fun x => is_empty x = false) names = names.
Proof.
  induction 1 as [|x l [Hx _] _ IH]; [done|].
  rewrite filter_cons_True by done. by rewrite IH.
Qed.

(** X6. The [reserved] list only holds non-empty names without commas;
    and a non-empty list of such names, written comma-separated into
    [PACKR_UGLIFY_RESERVED], is read back as it is, whatever the options
    and the file say. *)
Theorem reserved_round_trip (env : gmap string string) (o : options) (f : file_config) :
  (forall uc, userConfig env o f = Normal uc ->
     Forall reserved_name (reserved (uglify uc))) /\
  (forall names, names <> [] -> Forall reserved_name names ->
     env !! "PACKR_UGLIFY_RESERVED" = Some (join "," names) ->
     exists uc, userConfig env o f = Normal uc /\ reserved (uglify uc) = names).
Proof.
  split.
  - intros uc. unfold userConfig.
    destruct (reserved_source env _ _) as [s|l]; [|done]. simpl.
    intros [= <-]. simpl. apply Forall_forall. intros n Hn.
    apply list_elem_of_filter in Hn as [Hne Hn]. split; [done|].
    pose proof (split_on_pieces ","%char s) as Hp. rewrite Forall_forall in Hp.
    by apply Hp.
  - intros names Hne Hnames Henv. unfold userConfig, reserved_source. rewrite Henv.
    assert (is_empty (join "," names) = false) as Hj.
    { destruct names as [|x l]; [done|]. inversion Hnames as [|? ? [Hx _] _]; subst.
      destruct x; [done|]. by destruct l. }
    cbn [truthy defined_or]. rewrite Hj. cbn [negb split_reserved].
    change "," with (String ","%char "").
    rewrite split_on_join; [|done|].
    + rewrite filter_names by done. eexists. split; reflexivity.
    + eapply Forall_impl; [exact Hnames|]. by intros ? [_ ?].
Qed.

Lemma reserved_round_trip_witness :
  exists uc,
    userConfig (<["PACKR_UGLIFY_RESERVED" := "jQuery,$"]> ∅) empty_options empty_file_config
      = Normal uc /\
    reserved (uglify uc) = ["jQuery"; "$"].
Proof.
  apply (proj2 (reserved_round_trip (<["PACKR_UGLIFY_RESERVED" := "jQuery,$"]> ∅)
                  empty_options empty_file_config) ["jQuery"; "$"]).
  - done.
  - repeat (constructor; [split; [reflexivity|];
                          repeat (constructor; [discriminate|]); constructor|]).
    constructor.
  - reflexivity.
Defined.

(** X7. When the first non-empty [reserved] source is an array (the form
    the README shows for [.packr.json]), building the configuration
    throws, and [packr] ends with that error before writing anything; a
    non-empty [PACKR_UGLIFY_RESERVED] hides the array and nothing is
    thrown. *)
Theorem reserved_array_throws (w : world) (o : options) (cf : file_config)
    (dir : string) (t0 : list event) :
  load_config w o = (Normal (cf, dir), t0) ->
  (forall l,
     reserved_source (w_env w) (o_uglify o ≫= uo_reserved) (f_uglify cf ≫= uf_reserved)
       = RArray l ->
     exists e t, userConfig (w_env w) o cf = Throw e /\
                 packr w o = (Throw e, t) /\
                 artifacts_written t = [] /\ spawns t = []) /\
  (truthy (w_env w !! "PACKR_UGLIFY_RESERVED") = true ->
     exists uc, userConfig (w_env w) o cf = Normal uc).
Proof.
  intros Hl. split.
  - intros l Hs.
    assert (exists e, userConfig (w_env w) o cf = Throw e) as [e He].
    { unfold userConfig. rewrite Hs. simpl. eauto. }
    assert (exists t, packr w o = (Throw e, t)) as [t Ht].
    { unfold packr, packr_body, mbind, Eff_bind, bind, lift, emit, mret, Eff_ret, ret.
      rewrite Hl, He. unfold try_handle, handleError. eauto. }
    exists e, t. split; [done|]. split; [done|].
    apply harmless_no_effects. by apply (packr_throw_before_effects w o e).
  - intros Ht. unfold userConfig, reserved_source. rewrite Ht. simpl. eauto.
Qed.

Lemma reserved_array_throws_witness :
  exists e t, packr (sample_world array_file) sample_options = (Throw e, t) /\
              artifacts_written t = [].
Proof.
  destruct (proj1 (reserved_array_throws (sample_world array_file) sample_options
                     array_file "/proj" [Console CLog] eq_refl) ["jQuery"; "$"] eq_refl)
    as (e & t & _ & H & Ha & _).
  by exists e, t.
Defined.

(** X8. [target] and [format] are never empty in a merged
    configuration, and [format] is whatever non-empty string comes first:
    it is not held to [iife], [cjs] or [esm]. *)
Theorem target_format_never_empty (env : gmap string string) (o : options)
    (f : file_config) (uc : user_config) :
  userConfig env o f = Normal uc ->
  is_empty (target uc) = false /\ is_empty (format uc) = false /\
  (forall v, is_empty v = false -> env !! "PACKR_FORMAT" = Some v -> format uc = v).
Proof.
  unfold userConfig. destruct (split_reserved _); [|done]. intros [= <-]. simpl.
  assert (forall a d, is_empty d = false -> is_empty (js_or_lit a d) = false) as Hlit.
  { intros [s|] d Hd; simpl; [|done]. by destruct (is_empty s) eqn:E. }
  split; [by apply Hlit|]. split; [by apply Hlit|].
  intros v Hv ->. unfold js_or, js_or_lit, truthy. repeat (rewrite Hv; simpl). done.
Qed.

Lemma target_format_never_empty_witness :
  exists uc,
    userConfig (<["PACKR_FORMAT" := "umd"]> ∅) empty_options empty_file_config = Normal uc /\
    format uc = "umd" /\ target uc = "es2020".
Proof.
  assert (exists uc, userConfig (<["PACKR_FORMAT" := "umd"]> ∅) empty_options
                       empty_file_config = Normal uc) as [uc H]
    by (eexists; vm_compute; reflexivity).
  exists uc. split; [exact H|].
  destruct (target_format_never_empty _ _ _ uc H) as (_ & _ & Hf).
  split; [by apply Hf|].
  revert H. vm_compute. by intros [= <-].
Defined.

(** ** More on the environment loader *)

Lemma load_first_lookup kvs (env : gmap string string) k :
  Forall (fun kv => line_name kv = kv.1) kvs ->
  fold_left (assign false) kvs env !! k =
    match env !! k with
    | Some v => Some v
    | None => if bool_decide (k ∈ inherited_names) then None else first_value k kvs
    end.
Proof.
  intros H. revert env. induction H as [|kv kvs Hkv _ IH]; intros env.
  { simpl. destruct (env !! k); [done|]. by destruct (bool_decide _). }
  assert (c_string kv.1 = kv.1) as Hc.
  { rewrite <- Hkv at 1. unfold line_name. rewrite c_string_idem. exact Hkv. }
  cbn [fold_left first_value]. rewrite IH. unfold assign, has_property.
  cbn [orb]. rewrite Hc. unfold line_name in Hkv |- *.
  destruct (decide (kv.1 = k)) as [Heq|Hne].
  - rewrite Hkv, Heq, String.eqb_refl. cbn [andb].
    destruct (env !! k) as [v|] eqn:E.
    + rewrite bool_decide_eq_true_2 by eauto. cbn [orb negb]. by rewrite E.
    + rewrite (bool_decide_eq_false_2 (is_Some None)) by (by intros [? ?]). cbn [orb].
      destruct (bool_decide (k ∈ inherited_names)); cbn [negb]; [by rewrite E|].
      rewrite Heq in Hkv. rewrite store_lookup, Hkv, String.eqb_refl. cbn [andb].
      destruct (is_empty k); cbn [negb]; [|done]. by rewrite E.
  - apply String.eqb_neq in Hne as Hne'. rewrite Hkv, Hne'. cbn [andb].
    destruct (negb _); [|done]. rewrite store_lookup, Hkv, Hne'. done.
Qed.

(** X9. Without override the first definition wins: after the load of
    a file whose keys are written without white space before the [=] (and
    without NUL character), a variable that was set keeps its value, and
    one that was not set has the value of the first line that names it
    (up to the first NUL character); but a name that
    [process.env] inherits from [Object.prototype], such as [toString], is
    never set by such a load, and neither is the empty name. *)
Theorem load_without_override_first_wins (fs : gmap string env_file) (path : string)
    (env env' : gmap string string) (file : env_file) (content : string) (k : string) :
  fs !! path = Some file ->
  ef_content file = Normal content ->
  loadEnvFromFile fs path false env = (Normal tt, env') ->
  Forall (fun kv => line_name kv = kv.1) (parse_lines content) ->
  env' !! k = match env !! k with
              | Some v => Some v
              | None =>
                  if bool_decide (k ∈ inherited_names) then None
                  else first_value k (parse_lines content)
              end.
Proof.
  intros Hf Hc Hl Hk.
  destruct (loadEnvFromFile_present _ _ _ _ _ _ Hf Hl) as (c & Ec & ->).
  rewrite Hc in Ec. injection Ec as <-. by apply load_first_lookup.
Qed.

Lemma load_without_override_first_wins_witness :
  (loadEnvFromFile twice_fs ".env" false (<["B" := "0"]> ∅)).2 !! "A" = Some "1".
Proof.
  rewrite (load_without_override_first_wins twice_fs ".env" (<["B" := "0"]> ∅)
             (loadEnvFromFile twice_fs ".env" false (<["B" := "0"]> ∅)).2
             {| ef_mode := Normal 420%N;
                ef_content := Normal ("A=1" +:+ line_feed +:+ "A=2" +:+ line_feed +:+ "B=3") |}
             ("A=1" +:+ line_feed +:+ "A=2" +:+ line_feed +:+ "B=3") "A").
  - reflexivity.
  - reflexivity.
  - reflexivity.
  - vm_compute. reflexivity.
  - vm_compute. repeat constructor.
Defined.

Lemma assign_frame override (env : gmap string string) kv k :
  line_name kv <> k -> assign override env kv !! k = env !! k.
Proof.
  intros H. unfold assign. destruct (override || _); [|done].
  rewrite store_lookup. unfold line_name in H. apply String.eqb_neq in H. by rewrite H.
Qed.

Lemma assign_keeps_set override (env : gmap string string) kv k :
  is_Some (env !! k) -> is_Some (assign override env kv !! k).
Proof.
  intros H. unfold assign. destruct (override || _); [|done]. by apply store_keeps.
Qed.

Lemma load_lines_frame override kvs (env : gmap string string) k :
  Forall (fun kv => line_name kv <> k) kvs ->
  fold_left (assign override) kvs env !! k = env !! k.
Proof.
  intros H. revert env. induction H as [|kv kvs Hkv _ IH]; intros env; [done|].
  simpl. rewrite IH. by apply assign_frame.
Qed.

Lemma load_lines_keeps_set override kvs (env : gmap string string) k :
  is_Some (env !! k) -> is_Some (fold_left (assign override) kvs env !! k).
Proof.
  revert env. induction kvs as [|kv kvs IH]; intros env H; [done|].
  simpl. apply IH. by apply assign_keeps_set.
Qed.

Lemma loadEnvFromFile_keeps_set fs path override (env : gmap string string) k :
  is_Some (env !! k) -> is_Some ((loadEnvFromFile fs path override env).2 !! k).
Proof.
  intros H. unfold loadEnvFromFile. destruct (fs !! path) as [file|]; [|done].
  destruct (ef_mode file) as [mode|?]; [|done].
  destruct (negb _ && _); [done|].
  destruct (ef_content file) as [content|?]; [|done]. by apply load_lines_keeps_set.
Qed.

Lemma loadEnvFromFile_frame fs path override (env : gmap string string) k :
  (forall file content, fs !! path = Some file -> ef_content file = Normal content ->
     Forall (fun kv => line_name kv <> k) (parse_lines content)) ->
  (loadEnvFromFile fs path override env).2 !! k = env !! k.
Proof.
  intros H. unfold loadEnvFromFile. destruct (fs !! path) as [file|] eqn:Ef; [|done].
  destruct (ef_mode file) as [mode|?]; [|done].
  destruct (negb _ && _); [done|].
  destruct (ef_content file) as [content|?] eqn:Ec; [|done].
  apply load_lines_frame. by apply (H file).
Qed.

(** X10. Loading never unsets a variable: whatever the files hold and
    however the load ends, a variable that was set before [loadEnvFiles]
    is still set after it. *)
Theorem loadEnvFiles_keeps_variables (fs : gmap string env_file)
    (env0 : gmap string string) (k : string) :
  is_Some (env0 !! k) -> is_Some ((loadEnvFiles fs env0).2 !! k).
Proof.
  intros H0.
  unfold loadEnvFiles, mbind, Load_bind, load_bind, get_env, set_env, mret, Load_ret.
  pose proof (loadEnvFromFile_keeps_set fs ".env" false env0 k H0) as H1.
  destruct (loadEnvFromFile fs ".env" false env0) as [[[]|e] env1]; [|done].
  cbv beta iota zeta. simpl in H1.
  set (nodeEnv := js_or_lit (env1 !! "NODE_ENV") "development").
  pose proof (loadEnvFromFile_keeps_set fs (".env-" +:+ nodeEnv) true env1 k H1) as H2.
  destruct (loadEnvFromFile fs (".env-" +:+ nodeEnv) true env1) as [[[]|e] env2]; [|done].
  cbv beta iota zeta. simpl in H2.
  assert (forall env3, is_Some (env3 !! k) ->
            is_Some (((if String.eqb nodeEnv "production"
                       then production_checks
                       else fun env => (Normal tt, env)) env3).2 !! k))
    as Hfin.
  { intros env3 H3. destruct (String.eqb nodeEnv "production"); [|done].
    by rewrite production_checks_state. }
  destruct (String.eqb nodeEnv "development" && bool_decide (is_Some (fs !! ".env-local"))).
  - cbv beta iota zeta.
    pose proof (loadEnvFromFile_keeps_set fs ".env-local" true env2 k H2) as H3.
    destruct (loadEnvFromFile fs ".env-local" true env2) as [[[]|e] env3]; [|done].
    simpl in H3. destruct (env2 !! "PACKR_SOURCEMAP") as [v|]; cbv beta iota zeta.
    + apply Hfin. destruct (decide ("PACKR_SOURCEMAP" = k)) as [<-|Hne].
      * rewrite lookup_insert_eq. eauto.
      * by rewrite lookup_insert_ne.
    + by apply Hfin.
  - cbv beta iota zeta. by apply Hfin.
Qed.

Lemma loadEnvFiles_keeps_variables_witness :
  is_Some ((loadEnvFiles (spec_example_fs 420) production_env).2 !! "NODE_ENV").
Proof.
  apply (loadEnvFiles_keeps_variables (spec_example_fs 420) production_env "NODE_ENV").
  vm_compute. eauto.
Defined.

(** X11. Outside production mode the permission bits never stop the
    load: when [NODE_ENV] is not [production], every file that exists can
    be inspected and read (it is not a directory, and reading it is
    permitted), and no file assigns [NODE_ENV], then [loadEnvFiles] returns
    normally whatever the modes of the files are, and [NODE_ENV] is what it
    was. *)
Theorem loadEnvFiles_completes_outside_production (fs : gmap string env_file)
    (env0 : gmap string string) :
  is_production env0 = false ->
  (forall path file, fs !! path = Some file ->
     exists mode content,
       ef_mode file = Normal mode /\ ef_content file = Normal content /\
       Forall (fun kv => line_name kv <> "NODE_ENV") (parse_lines content)) ->
  exists env', loadEnvFiles fs env0 = (Normal tt, env') /\
               env' !! "NODE_ENV" = env0 !! "NODE_ENV".
Proof.
  intros Hp Hfs.
  assert (forall path override env,
            is_production env = false ->
            exists env', loadEnvFromFile fs path override env = (Normal tt, env') /\
                         env' !! "NODE_ENV" = env !! "NODE_ENV") as Hstep.
  { intros path override env Hpe.
    destruct (fs !! path) as [file|] eqn:Ef.
    - destruct (Hfs path file Ef) as (mode & content & Hm & Hc & Hk).
      rewrite (loadEnvFromFile_open fs path override env file mode content Ef Hm Hc)
        by (by left).
      eexists. split; [reflexivity|]. by apply load_lines_frame.
    - unfold loadEnvFromFile. rewrite Ef. eauto. }
  assert (forall env env', env' !! "NODE_ENV" = env !! "NODE_ENV" ->
            is_production env = false -> is_production env' = false) as Hkeep.
  { intros env env' E. unfold is_production, env_is. by rewrite E. }
  unfold loadEnvFiles, mbind, Load_bind, load_bind, get_env, set_env, mret, Load_ret.
  destruct (Hstep ".env" false env0 Hp) as (env1 & -> & E1). cbv beta iota zeta.
  pose proof (Hkeep _ _ E1 Hp) as Hp1.
  set (nodeEnv := js_or_lit (env1 !! "NODE_ENV") "development").
  destruct (Hstep (".env-" +:+ nodeEnv) true env1 Hp1) as (env2 & -> & E2).
  cbv beta iota zeta. pose proof (Hkeep _ _ E2 Hp1) as Hp2.
  assert (String.eqb nodeEnv "production" = false) as Hnp.
  { apply String.eqb_neq. intros Hn. revert Hp1. unfold is_production, env_is.
    subst nodeEnv. destruct (env1 !! "NODE_ENV") as [v|]; [|done]. simpl in Hn.
    destruct (is_empty v); [done|]. subst v. done. }
  rewrite Hnp.
  destruct (String.eqb nodeEnv "development" && bool_decide (is_Some (fs !! ".env-local"))).
  - cbv beta iota zeta. destruct (Hstep ".env-local" true env2 Hp2) as (env3 & -> & E3).
    destruct (env2 !! "PACKR_SOURCEMAP") as [v|]; cbv beta iota zeta.
    + eexists. split; [reflexivity|]. rewrite lookup_insert_ne by done. congruence.
    + eexists. split; [reflexivity|]. congruence.
  - cbv beta iota zeta. eexists. split; [reflexivity|]. congruence.
Qed.

Lemma loadEnvFiles_completes_outside_production_witness :
  exists env', loadEnvFiles development_fs ∅ = (Normal tt, env') /\
               env' !! "NODE_ENV" = None.
Proof.
  destruct (loadEnvFiles_completes_outside_production development_fs ∅) as (env' & H & E).
  - reflexivity.
  - intros path file Hf.
    destruct (decide (path = ".env")) as [->|N1].
    { vm_compute in Hf. injection Hf as <-. eexists _, _.
      split; [reflexivity|]. split; [reflexivity|].
      vm_compute. repeat constructor; discriminate. }
    destruct (decide (path = ".env-development")) as [->|N2].
    { vm_compute in Hf. injection Hf as <-. eexists _, _.
      split; [reflexivity|]. split; [reflexivity|].
      vm_compute. repeat constructor; discriminate. }
    destruct (decide (path = ".env-local")) as [->|N3].
    { vm_compute in Hf. injection Hf as <-. eexists _, _.
      split; [reflexivity|]. split; [reflexivity|].
      vm_compute. repeat constructor; discriminate. }
    unfold development_fs in Hf. by rewrite !lookup_insert_ne, lookup_empty in Hf.
  - exists env'. split; [exact H|]. rewrite E. apply lookup_empty.
Defined.

(** ** Lines of an environment file *)

Lemma startsWith_app_char p k c rest :
  is_empty k = false -> startsWith (String p "") (k +:+ String c rest) = startsWith (String p "") k.
Proof. destruct k as [|a k]; [done|]. intros _. simpl. by rewrite !andb_true_r. Qed.

Lemma parse_line_cut line key rest :
  trim line = key +:+ String "="%char rest ->
  no_char "="%char key -> startsWith "#" key = false ->
  parse_line line = Some (key, strip_quotes (trim rest)).
Proof.
  intros Ht Hk Hc. unfold parse_line. rewrite Ht.
  assert (is_empty (key +:+ String "="%char rest) = false) as -> by (by destruct key).
  assert (startsWith "#" (key +:+ String "="%char rest) = false) as ->.
  { destruct key as [|a k]; [done|]. by rewrite startsWith_app_char. }
  cbn [orb]. rewrite split_on_app, (split_on_no_char _ _ Hk). cbn [app].
  change "=" with (String "="%char ""). by rewrite join_split.
Qed.

(** X12. A line is cut at its first [=] only: when the trimmed line is
    [key=rest] and not a comment, the key is what stands before the first
    [=] and the value is the whole rest, further [=] signs included,
    trimmed and with one leading and one trailing quote removed; a line
    without [=] sets its key to the empty string; blank lines and comment
    lines give nothing. *)
Theorem parse_line_first_equals (key : string) :
  no_char "="%char key -> startsWith "#" key = false ->
  (forall line rest, trim line = key +:+ String "="%char rest ->
     parse_line line = Some (key, strip_quotes (trim rest))) /\
  (forall line, is_empty key = false -> trim line = key ->
     parse_line line = Some (key, "")) /\
  (forall line, is_empty (trim line) = true \/ startsWith "#" (trim line) = true ->
     parse_line line = None).
Proof.
  intros Hk Hc. split; [|split].
  - intros line rest Ht. by apply parse_line_cut.
  - intros line Hne Ht. unfold parse_line. rewrite Ht, Hne, Hc. cbn [orb].
    by rewrite (split_on_no_char _ _ Hk).
  - intros line H. unfold parse_line. by destruct H as [-> | ->]; rewrite ?orb_true_r.
Qed.

Lemma parse_line_first_equals_witness :
  parse_line "  DATABASE_URL='postgres://u@h/db?x=1' "
  = Some ("DATABASE_URL", "postgres://u@h/db?x=1").
Proof.
  apply (proj1 (parse_line_first_equals "DATABASE_URL"
                  ltac:(repeat (constructor; [discriminate|]); constructor) eq_refl)
           _ "'postgres://u@h/db?x=1'").
  reflexivity.
Defined.

(** ** White space before the [=] *)

Lemma trim_end_app_space s : trim_end (s +:+ " ") = trim_end s.
Proof.
  induction s as [|c s IH]; [done|].
  change (String c s +:+ " ") with (String c (s +:+ " ")).
  cbn [trim_end]. by rewrite IH.
Qed.

Lemma trim_start_app_space s :
  trim_start (s +:+ " ") = if is_empty (trim_start s) then "" else trim_start s +:+ " ".
Proof.
  induction s as [|c s IH]; [done|].
  change (String c s +:+ " ") with (String c (s +:+ " ")).
  cbn [trim_start]. destruct (is_ws c); [exact IH|done].
Qed.

Lemma trim_app_space s : trim (s +:+ " ") = trim s.
Proof.
  unfold trim. rewrite trim_start_app_space.
  destruct (trim_start s) eqn:E; [done|]. cbn [is_empty]. apply trim_end_app_space.
Qed.

Lemma spaced_not_inherited key : key +:+ " " ∉ inherited_names.
Proof.
  intros Hin.
  assert (Forall (no_char " "%char) inherited_names) as Hall.
  { repeat (constructor; [repeat (constructor; [discriminate|]); constructor|]).
    constructor. }
  rewrite Forall_forall in Hall. specialize (Hall _ Hin).
  unfold no_char in Hall. rewrite list_ascii_app in Hall.
  apply Forall_app in Hall as [_ Hall]. by inversion Hall.
Qed.

(** X13. The membership test of a load without override looks the key
    up as written, the assignment uses the trimmed key: a line whose key
    is followed by a blank before the [=] replaces a variable that is
    already set, although the load does not override (as long as no
    variable is named like the key with the blank). *)
Theorem spaced_key_overrides (fs : gmap string env_file) (path : string)
    (file : env_file) (env env' : gmap string string) (key rest old : string) :
  let content := key +:+ " " +:+ String "="%char rest in
  let name := c_string (trim key) in
  fs !! path = Some file ->
  ef_content file = Normal content ->
  no_char (ascii_of_nat 10) content ->
  no_char "="%char key ->
  trim content = content ->
  startsWith "#" key = false ->
  is_empty name = false ->
  env !! name = Some old ->
  env !! c_string (key +:+ " ") = None ->
  loadEnvFromFile fs path false env = (Normal tt, env') ->
  env' !! name = Some (c_string (strip_quotes (trim rest))).
Proof.
  intros content name Hf Hc Hnl Hk Ht Hs Hne Hold Hraw Hl.
  assert (no_char "="%char (key +:+ " ")) as Hk'.
  { unfold no_char in *. rewrite list_ascii_app. apply Forall_app. split; [done|].
    by repeat constructor. }
  assert (startsWith "#" (key +:+ " ") = false) as Hs'.
  { destruct key as [|a k]; [done|]. by rewrite startsWith_app_char. }
  assert (content = (key +:+ " ") +:+ String "="%char rest) as Hc'
    by (subst content; by rewrite string_app_assoc).
  assert (parse_line content = Some (key +:+ " ", strip_quotes (trim rest))) as Hp.
  { apply parse_line_cut; [|done|done]. by rewrite Ht. }
  destruct (loadEnvFromFile_present _ _ _ _ _ _ Hf Hl) as (c & Ec & ->).
  rewrite Hc in Ec. injection Ec as <-.
  unfold parse_lines. rewrite (split_on_no_char _ _ Hnl).
  change (omap parse_line [content])
    with (match parse_line content with Some y => [y] | None => [] end).
  rewrite Hp. cbn [fold_left]. unfold assign, has_property. cbn [fst snd orb].
  rewrite Hraw. rewrite bool_decide_eq_false_2 by (by intros [? ?]).
  rewrite bool_decide_eq_false_2 by apply spaced_not_inherited. cbn [orb negb].
  rewrite store_lookup, trim_app_space. fold name.
  rewrite String.eqb_refl, Hne. done.
Qed.

Lemma spaced_key_overrides_witness :
  (loadEnvFromFile spaced_fs ".env" false (<["PACKR_MINIFY" := "true"]> ∅)).2
    !! "PACKR_MINIFY" = Some "false".
Proof.
  apply (spaced_key_overrides spaced_fs ".env"
           {| ef_mode := Normal 420%N; ef_content := Normal "PACKR_MINIFY =false" |}
           (<["PACKR_MINIFY" := "true"]> ∅) _ "PACKR_MINIFY" "false" "true").
  - reflexivity.
  - reflexivity.
  - repeat (constructor; [discriminate|]). constructor.
  - repeat (constructor; [discriminate|]). constructor.
  - reflexivity.
  - reflexivity.
  - reflexivity.
  - reflexivity.
  - reflexivity.
  - vm_compute. reflexivity.
Defined.

(** ** The checks of production mode *)

(** X14. If [loadEnvFiles] returns normally in production mode, the
    four required variables are set and not empty, and no [PACKR_]
    variable whose name suggests a secret holds a value that looks like
    an example. *)
Theorem production_load_postcondition (fs : gmap string env_file)
    (env0 env1 env' : gmap string string) :
  loadEnvFromFile fs ".env" false env0 = (Normal tt, env1) ->
  env1 !! "NODE_ENV" = Some "production" ->
  loadEnvFiles fs env0 = (Normal tt, env') ->
  Forall (fun key => truthy (env' !! key) = true) requiredVars /\
  (forall key value, env' !! key = Some value -> is_sensitive_placeholder (key, value) = false).
Proof.
  intros H1 Hn.
  unfold loadEnvFiles, mbind, Load_bind, load_bind, get_env, set_env, mret, Load_ret.
  rewrite H1. cbv beta iota zeta. rewrite Hn.
  change (js_or_lit (Some "production") "development") with "production".
  change (String.eqb "production" "development") with false.
  change (String.eqb "production" "production") with true.
  destruct (loadEnvFromFile fs (".env-" +:+ "production") true env1) as [[[]|e] env2]; [|done].
  cbv beta iota zeta. cbn [andb]. unfold production_checks.
  destruct (filter (fun key => truthy (env2 !! key) = false) requiredVars) as [|m ms] eqn:Em;
    [|done].
  cbn [List.length Nat.eqb negb].
  destruct (filter (fun kv => is_sensitive_placeholder kv = true) (map_to_list env2))
    as [|s ss] eqn:Es; [|done].
  cbn [fmap list_fmap List.length Nat.eqb negb]. intros [= <-]. split.
  - apply Forall_forall. intros key Hkey.
    destruct (truthy (env2 !! key)) eqn:E; [done|].
    assert (key ∈ filter (fun key => truthy (env2 !! key) = false) requiredVars) as Hin
      by (by apply list_elem_of_filter).
    rewrite Em in Hin. by apply not_elem_of_nil in Hin.
  - intros key value Hkv.
    destruct (is_sensitive_placeholder (key, value)) eqn:E; [|done].
    assert ((key, value) ∈ filter (fun kv => is_sensitive_placeholder kv = true)
                                  (map_to_list env2)) as Hin.
    { apply list_elem_of_filter. split; [done|]. by apply elem_of_map_to_list. }
    rewrite Es in Hin. by apply not_elem_of_nil in Hin.
Qed.

Lemma production_load_postcondition_witness :
  Forall (fun key => truthy ((loadEnvFiles (spec_example_fs 384) production_ready_env).2
                               !! key) = true) requiredVars.
Proof.
  apply (production_load_postcondition (spec_example_fs 384) production_ready_env
           (<["FOO" := "1"]> production_ready_env)
           (loadEnvFiles (spec_example_fs 384) production_ready_env).2).
  - vm_compute. reflexivity.
  - reflexivity.
  - vm_compute. reflexivity.
Defined.

(** ** The local file outside development mode *)

Lemma env_file_name_inj a b : ".env-" +:+ a = ".env-" +:+ b -> a = b.
Proof. by intros [= ?]. Qed.

Lemma loadEnvFromFile_other_file fs path other override env :
  path <> other ->
  loadEnvFromFile (delete other fs) path override env = loadEnvFromFile fs path override env.
Proof. intros H. unfold loadEnvFromFile. by rewrite lookup_delete_ne. Qed.

(** X15. [.env-local] only counts in development mode: when the mode
    read after the base load is neither [development] nor [local], the
    load is the same with the local file and without it.  (In mode
    [local] the file is the environment-specific file itself.) *)
Theorem local_file_only_in_development (fs : gmap string env_file)
    (env0 env1 : gmap string string) (r : completion unit) :
  loadEnvFromFile fs ".env" false env0 = (r, env1) ->
  js_or_lit (env1 !! "NODE_ENV") "development" <> "development" ->
  js_or_lit (env1 !! "NODE_ENV") "development" <> "local" ->
  loadEnvFiles (delete ".env-local" fs) env0 = loadEnvFiles fs env0.
Proof.
  intros H1 Hd Hl.
  unfold loadEnvFiles, mbind, Load_bind, load_bind, get_env, set_env, mret, Load_ret.
  rewrite loadEnvFromFile_other_file by done. rewrite H1.
  destruct r as [[]|e]; [|done]. cbv beta iota zeta.
  rewrite loadEnvFromFile_other_file.
  2:{ intros E. by apply env_file_name_inj in E. }
  apply String.eqb_neq in Hd. rewrite Hd. reflexivity.
Qed.

Lemma local_file_only_in_development_witness :
  loadEnvFiles (delete ".env-local" development_fs) (<["NODE_ENV" := "staging"]> ∅)
  = loadEnvFiles development_fs (<["NODE_ENV" := "staging"]> ∅).
Proof.
  apply (local_file_only_in_development development_fs (<["NODE_ENV" := "staging"]> ∅)
           (<["PACKR_SOURCEMAP" := "false"]> (<["NODE_ENV" := "staging"]> ∅)) (Normal tt)).
  - vm_compute. reflexivity.
  - vm_compute. discriminate.
  - vm_compute. discriminate.
Defined.

(** ** The command-line entry *)

Lemma js_or_blank_none env n : blank env n -> js_or (js_or (env !! n) None) None = None.
Proof. by intros [-> | ->]. Qed.

(** With the options the entry passes, [packr] finds no required path
    unless the environment gives it. *)
Lemma packr_cli_options_throws w config watchMode :
  blank (w_env w) "PACKR_SCSS_INPUT" \/ blank (w_env w) "PACKR_SCSS_OUTPUT" \/
  blank (w_env w) "PACKR_JS_INPUT" \/ blank (w_env w) "PACKR_JS_OUTPUT" ->
  exists e t, packr w (cli_options config watchMode) = (Throw e, t).
Proof.
  intros Hb.
  unfold packr, packr_body, load_config. cbn [cli_options o_config truthy].
  unfold mbind, Eff_bind, bind, lift, emit, mret, Eff_ret, ret.
  destruct (userConfig (w_env w) (cli_options config watchMode) empty_file_config)
    as [uc|e] eqn:Eu; [|unfold try_handle, handleError; eauto].
  cbv beta iota zeta.
  assert (exists key, validate_required required uc = Throw (missing_message key))
    as [key ->].
  { destruct (validate_required_missing uc) as (key & _ & Hk); [|eauto].
    revert Eu. unfold userConfig. destruct (split_reserved _); [|done].
    intros [= <-]. cbn [scss_input scss_output js_input js_output cli_options
                        o_scssInput o_scssOutput o_jsInput o_jsOutput empty_file_config
                        f_scss_input f_scss_output f_js_input f_js_output].
    destruct Hb as [Hb|[Hb|[Hb|Hb]]]; rewrite (js_or_blank_none _ _ Hb); auto. }
  unfold try_handle, handleError. eauto.
Qed.

(** X16. The entry hands the parsed config file to [packr] as options,
    and [packr] reads the required paths from options under their
    camelCase names only.  So with a config file that holds the documented
    keys, the run exits with status 1 without writing the artifact or
    starting the worker, unless all four required paths come from the
    environment. *)
Theorem cli_needs_paths_from_environment (w : world) (isDirectory : string -> bool)
    (args : list string) :
  blank (w_env w) "PACKR_SCSS_INPUT" \/ blank (w_env w) "PACKR_SCSS_OUTPUT" \/
  blank (w_env w) "PACKR_JS_INPUT" \/ blank (w_env w) "PACKR_JS_OUTPUT" ->
  (cli w isDirectory args).1 = Exit 1 /\
  artifacts_written (cli w isDirectory args).2 = [] /\
  spawns (cli w isDirectory args).2 = [].
Proof.
  intros Hb. unfold cli.
  destruct (w_exists w (cli_config_path w isDirectory args)); [|done]. cbn [negb].
  destruct (w_read_config w (cli_config_path w isDirectory args)) as [config|e]; [|done].
  destruct (packr_cli_options_throws w config (existsb (String.eqb "--watch") args) Hb)
    as (e & t & Ht).
  rewrite Ht. cbn [fst snd].
  destruct (harmless_no_effects t (packr_throw_before_effects w _ e t Ht)) as [Ha Hs].
  by rewrite artifacts_written_app, spawns_app, Ha, Hs.
Qed.

Lemma cli_needs_paths_from_environment_witness :
  (cli (sample_world sample_file) (fun _ => false) ["packr.json"]).1 = Exit 1.
Proof.
  apply (cli_needs_paths_from_environment (sample_world sample_file) (fun _ => false)
           ["packr.json"]).
  left. left. reflexivity.
Defined.

(** X17. The entry exits with status 1 and does nothing else when the
    config file it settles on does not exist; [--watch] given as first
    argument is taken for the config path; and 1 is the only status it
    ever exits with: the exit status of the worker is not passed on. *)
Theorem cli_exit_status (w : world) (isDirectory : string -> bool) (args : list string) :
  (w_exists w (cli_config_path w isDirectory args) = false ->
     cli w isDirectory args = (Exit 1, [Console CError])) /\
  (head args = Some "--watch" -> w_exists w "--watch" = false ->
     cli w isDirectory args = (Exit 1, [Console CError])) /\
  (args = [] -> w_exists w (pjoin [w_cwd w; "packr.json"]) = false ->
     w_exists w (pjoin [w_cwd w; ".packr.json"]) = false ->
     cli w isDirectory args = (Exit 1, [Console CError])) /\
  (forall code, (cli w isDirectory args).1 = Exit code -> code = 1%Z).
Proof.
  split; [|split; [|split]].
  - intros H. unfold cli. by rewrite H.
  - intros Hh He. unfold cli, cli_config_path. rewrite Hh. cbn [js_or_lit is_empty].
    rewrite He. cbn [andb]. by rewrite He.
  - intros -> H1 H2. unfold cli, cli_config_path. rewrite H1. cbn [head js_or_lit].
    rewrite H2. cbn [andb]. by rewrite H2.
  - intros code. unfold cli.
    destruct (w_exists w _); cbn [negb]; [|by intros [= <-]].
    destruct (w_read_config w _); [|by intros [= <-]].
    destruct (packr w _) as [[[| |]|] t]; cbn [fst]; by intros [= <-].
Qed.

Lemma cli_exit_status_witness :
  cli empty_dir_world (fun _ => false) ["--watch"] = (Exit 1, [Console CError]) /\
  cli empty_dir_world (fun _ => false) [] = (Exit 1, [Console CError]).
Proof.
  split.
  - apply (proj1 (proj2 (cli_exit_status empty_dir_world (fun _ => false) ["--watch"])));
      reflexivity.
  - apply (proj1 (proj2 (proj2 (cli_exit_status empty_dir_world (fun _ => false) []))));
      reflexivity.
Defined.

(** ** The guard of the test harness *)

(** X18. [safeDelete] of the test harness removes nothing outside its
    root and never the root itself: the path it hands to [fs.rmSync] is
    the resolved target, exists, and lies strictly below the root; for the
    root itself, if it exists, it throws. *)
Theorem safeDelete_stays_below_root (cwd ROOT_DIR : string) (exists_ : string -> bool)
    (targetPath : string) :
  isAbsolute cwd = true -> canonical ROOT_DIR ->
  (forall p, safeDelete cwd ROOT_DIR exists_ targetPath = Normal (Some p) ->
     p = resolve cwd [targetPath] /\ exists_ p = true /\
     inside_root ROOT_DIR p /\ p <> ROOT_DIR) /\
  (exists_ ROOT_DIR = true ->
     safeDelete cwd ROOT_DIR exists_ ROOT_DIR
       = Throw (Error ("Unsafe delete blocked for: " +:+ ROOT_DIR))).
Proof.
  intros Hc Hr. split.
  - intros p. unfold safeDelete.
    destruct (exists_ (resolve cwd [targetPath])) eqn:Ex; [|done]. cbn [negb].
    destruct (isPathInside_strict cwd (resolve cwd [targetPath]) ROOT_DIR) eqn:Ei; [|done].
    cbn [negb]. intros [= <-]. split; [done|]. split; [done|].
    unfold isPathInside_strict in Ei.
    apply andb_true_iff in Ei as [Ei Hab]. apply andb_true_iff in Ei as [Hne Hup].
    split.
    + apply (isPathInside_canonical cwd); [done|by apply canonical_resolve|].
      unfold isPathInside. by rewrite Hup, Hab.
    + intros E. rewrite E in Hne. unfold relative in Hne. by rewrite String.eqb_refl in Hne.
  - intros Ex. unfold safeDelete. rewrite (resolve_canonical_1 cwd ROOT_DIR Hr), Ex.
    cbn [negb]. unfold isPathInside_strict, relative. by rewrite String.eqb_refl.
Qed.

Lemma safeDelete_stays_below_root_witness :
  safeDelete "/repo" "/repo/__tests__" (fun _ => true) "__tests__/test-packr-env/dist"
    = Normal (Some "/repo/__tests__/test-packr-env/dist") /\
  safeDelete "/repo" "/repo/__tests__" (fun _ => true) "/repo/__tests__"
    = Throw (Error "Unsafe delete blocked for: /repo/__tests__").
Proof.
  split; [reflexivity|].
  apply (proj2 (safeDelete_stays_below_root "/repo" "/repo/__tests__" (fun _ => true)
                  "x" eq_refl (conj eq_refl eq_refl)) eq_refl).
Defined.

(** ** Masking of error messages *)

Example mask_ex1 :
  maskSensitiveInfo true ("failed for " +:+ forty +:+ " at host")
  = "failed for [REDACTED] at host".
Proof. reflexivity. Qed.
Example mask_ex2 :
  maskSensitiveInfo true "GET /x?API_KEY=abc&token=t0k3n user secret= none Secret=s3cr3t"
  = "GET /x?API_key=[REDACTED]&token=[REDACTED] user secret= none secret=[REDACTED]".
Proof. reflexivity. Qed.
Example mask_ex3 :
  maskSensitiveInfo true "token=key=abc;secret=1 kkey=v key=" = "token=[REDACTED] kkey=[REDACTED] key=".
Proof. reflexivity. Qed.
Example mask_ex4 : maskSensitiveInfo false ("key=" +:+ forty) = "key=" +:+ forty.
Proof. reflexivity. Qed.
Example format_ex1 :
  formatError true ("bad token=" +:+ forty) "at f (x.js:1)" "Packr Error"
  = "Packr Error: bad token=[REDACTED]".
Proof. reflexivity. Qed.

Lemma is_alnum_to_lower (c : ascii) : is_alnum (to_lower c) = is_alnum c.
Proof. by destruct c as [[] [] [] [] [] [] [] []]. Qed.

Lemma no_long_run_cons (c : ascii) (s : string) :
  no_long_run (String c s) = Nat.ltb (run_length (String c s)) 32 && no_long_run s.
Proof. done. Qed.

Lemma run_length_app_sep (a : string) (c : ascii) (x : string) :
  is_alnum c = false -> run_length (a +:+ String c x) = run_length a.
Proof.
  intros Hc. induction a as [|b a IH].
  - change (run_length (String c x) = 0). simpl. by rewrite Hc.
  - change (run_length (String b (a +:+ String c x)) = run_length (String b a)).
    simpl. by rewrite IH.
Qed.

Lemma no_long_run_app_sep (a : string) (c : ascii) (x : string) :
  is_alnum c = false ->
  no_long_run (a +:+ String c x) = no_long_run a && no_long_run x.
Proof.
  intros Hc. induction a as [|b a IH].
  - change (no_long_run (String c x) = no_long_run "" && no_long_run x).
    rewrite no_long_run_cons. simpl. by rewrite Hc.
  - change (no_long_run (String b (a +:+ String c x))
            = no_long_run (String b a) && no_long_run x).
    rewrite !no_long_run_cons, IH.
    change (String b (a +:+ String c x)) with (String b a +:+ String c x).
    rewrite (run_length_app_sep (String b a) c x Hc).
    by rewrite andb_assoc.
Qed.

Lemma no_long_run_redacted (x : string) :
  no_long_run ("[REDACTED]" +:+ x) = no_long_run x.
Proof.
  change ("[REDACTED]" +:+ x) with ("[REDACTED" +:+ String "]" x).
  by rewrite no_long_run_app_sep.
Qed.

(** The first pass leaves no long run. *)
Lemma mask_runs_short (s : string) :
  no_long_run (mask_runs Outside s) = true /\
  (no_long_run (mask_runs Dropping s) = true /\
   run_length (mask_runs Dropping s) = 0) /\
  (run_length s < 32 ->
   no_long_run (mask_runs Copying s) = true /\
   run_length (mask_runs Copying s) = run_length s).
Proof.
  induction s as [|c s (IHo & (IHd & IHd0) & IHc)]; [by repeat split|].
  assert (Hcopy : is_alnum c = true -> run_length (String c s) < 32 ->
                  no_long_run (String c (mask_runs Copying s)) = true /\
                  run_length (String c (mask_runs Copying s)) = run_length (String c s)).
  { intros Ec Hl. cbn [run_length] in Hl. rewrite Ec in Hl.
    destruct IHc as [IH1 IH2]; [lia|].
    rewrite no_long_run_cons, IH1, andb_true_r.
    cbn [run_length]. rewrite Ec, IH2. split; [apply Nat.ltb_lt; lia|done]. }
  cbn [mask_runs]. destruct (is_alnum c) eqn:Ec.
  - split; [|split].
    + destruct (Nat.leb 32 (run_length (String c s))) eqn:El.
      * by rewrite no_long_run_redacted.
      * apply Nat.leb_gt in El. by apply Hcopy.
    + done.
    + intros Hl. by apply Hcopy.
  - rewrite !no_long_run_cons, IHo. cbn [run_length]. rewrite Ec. by repeat split.
Qed.

Lemma run_length_starts_ci (name s x : string) :
  starts_ci (name +:+ "=") s = true ->
  run_length s = run_length (name +:+ String "=" x).
Proof.
  revert s. induction name as [|a name IH]; intros [|b s]; try done.
  - change ("" +:+ "=") with "=". cbn [starts_ci].
    intros [Hb _]%andb_true_iff. apply Ascii.eqb_eq in Hb.
    change (run_length (String b s) = run_length (String "=" x)).
    simpl. by rewrite <- is_alnum_to_lower, <- Hb.
  - change (String a name +:+ "=") with (String a (name +:+ "=")). cbn [starts_ci].
    intros [->%Ascii.eqb_eq H]%andb_true_iff.
    change (run_length (String b s)
            = run_length (String (to_lower b) (name +:+ String "=" x))).
    simpl. rewrite is_alnum_to_lower, (IH s H). done.
Qed.

(** A later pass keeps the runs short: what it copies it copies
    unchanged, and what it puts in holds no long run. *)
Lemma mask_assign_short (name : string) :
  no_long_run (name +:+ "=[REDACTED") = true ->
  forall s, no_long_run s = true ->
    (forall st, no_long_run (mask_assign name st s) = true) /\
    run_length (mask_assign name Scan s) <= run_length s.
Proof.
  intros Hname. induction s as [|c s IH]; intros Hs.
  { split; [by intros []|done]. }
  rewrite no_long_run_cons in Hs. apply andb_true_iff in Hs as [Hl Hs].
  apply Nat.ltb_lt in Hl. destruct (IH Hs) as [IHn IHr]. clear IH.
  assert (Hscan : no_long_run (mask_assign name Scan (String c s)) = true /\
                  run_length (mask_assign name Scan (String c s))
                  <= run_length (String c s)).
  { cbn [mask_assign]. destruct (matches_at name (String c s)) eqn:Em.
    - apply andb_true_iff in Em as [Em _]. split.
      + change (name +:+ "=[REDACTED]") with (name +:+ ("=[REDACTED" +:+ "]")).
        rewrite <- (string_app_assoc name), string_app_assoc.
        change ("]" +:+ mask_assign name (Prefix (String.length name)) s)
          with (String "]" (mask_assign name (Prefix (String.length name)) s)).
        rewrite no_long_run_app_sep by done. by rewrite Hname, IHn.
      + rewrite string_app_assoc.
        change ("=[REDACTED]" +:+ mask_assign name (Prefix (String.length name)) s)
          with (String "=" ("[REDACTED]" +:+ mask_assign name (Prefix (String.length name)) s)).
        by rewrite <- (run_length_starts_ci name (String c s) _ Em).
    - rewrite no_long_run_cons, IHn, andb_true_r.
      assert (run_length (String c (mask_assign name Scan s)) <= run_length (String c s)).
      { simpl. destruct (is_alnum c); lia. }
      split; [apply Nat.ltb_lt; lia|done]. }
  split; [|apply Hscan].
  intros [|[|n]|]; [apply Hscan|apply IHn|apply IHn|].
  change (mask_assign name Drop (String c s))
    with (if value_char c then mask_assign name Drop s
          else mask_assign name Scan (String c s)).
  destruct (value_char c); [apply IHn|apply Hscan].
Qed.

Lemma maskSensitiveInfo_short (message : string) :
  no_long_run (maskSensitiveInfo true message) = true.
Proof.
  unfold maskSensitiveInfo.
  apply mask_assign_short; [done|].
  apply mask_assign_short; [done|].
  apply mask_assign_short; [done|].
  apply mask_runs_short.
Qed.

(** X19. In production the text that [formatError] builds for an error
    holds no run of 32 or more letters and digits, whatever the message
    and the stack of the error, as long as the context handed in holds
    none. *)
Theorem production_report_has_no_long_token (message stack context : string) :
  no_long_run context = true ->
  no_long_run (formatError true message stack context) = true.
Proof.
  intros Hc. unfold formatError.
  assert (Hm : no_long_run (maskSensitiveInfo true message +:+ "") = true).
  { replace (maskSensitiveInfo true message +:+ "") with (maskSensitiveInfo true message).
    - apply maskSensitiveInfo_short.
    - generalize (maskSensitiveInfo true message). intros m.
      induction m as [|a m IH]; [done|].
      change (String a m = String a (m +:+ "")). by rewrite <- IH. }
  destruct (is_empty context); [exact Hm|].
  rewrite !string_app_assoc.
  change (": " +:+ (maskSensitiveInfo true message +:+ ""))
    with (String ":" (" " +:+ (maskSensitiveInfo true message +:+ ""))).
  rewrite no_long_run_app_sep by done. rewrite Hc. cbn [andb].
  change (" " +:+ (maskSensitiveInfo true message +:+ ""))
    with (String " " (maskSensitiveInfo true message +:+ "")).
  rewrite no_long_run_cons, Hm. done.
Qed.

Lemma production_report_has_no_long_token_witness :
  no_long_run (formatError true ("bad token " +:+ forty) "at f (x.js:1)" "Packr Error") = true.
Proof. apply production_report_has_no_long_token. reflexivity. Defined.
